(** * TorchLRP, [examples/explain_mnist.py]: a shallow embedding

    Tensors hold finite floating-point values; they are modelled here by
    exact rationals ([Q]), so that every comparison is the one the code
    makes and every arithmetic identity is the one the code computes up to
    rounding.  A batch is a list of samples, a sample is the list of its
    elements in row-major order (what [a.view(a.size(0), -1)] yields).
    Where a result depends on the rounding itself (the seed drawn at line
    144, the two computations of the Pattern Fitter) the numbers are
    binary64 values, Rocq's primitive floats. *)

From Stdlib Require Import QArith Qabs Qminmax Qround Lqa Lia List.
From Stdlib Require PrimFloat FloatOps SpecFloat Uint63.
From stdpp Require Import base option list strings gmap.

Local Open Scope Q_scope.

(** ** Rational vectors *)

Module Vec.

Abbreviation Sample := (list Q).
Abbreviation Tensor := (list (list Q)).

(** [t.shape]: the batch size together with the size of every sample. *)
Definition shape (t : Tensor) : list nat := map (@length Q) t.

Definition qsum (l : list Q) : Q := fold_right Qplus 0 l.

(** The tolerance [1e-5] of the numerical properties. *)
Definition tol : Q := 1 # 100000.

Definition close (a b : Q) : Prop := Qabs (a - b) <= tol.

End Vec.
Import Vec.

(** ** [prepare_batch_for_plotting], lines 29-43 *)

Module Plotting.

(** [1e-6] *)
Definition stab : Q := 1 # 1000000.

(** [torch.abs(a).view(a.size(0), -1).max(1)[0]] on one sample; the
    reduction has no identity, so it raises on a sample without
    elements. *)
Fixpoint max_abs (s : Sample) : option Q :=
  match s with
  | [] => None
  | v :: s' =>
      match max_abs s' with
      | None => Some (Qabs v)
      | Some m => Some (Qmax (Qabs v) m)
      end
  end.

(** The per-sample denominator [max |a| + 1e-6]. *)
Definition denom (s : Sample) : option Q :=
  match max_abs s with
  | None => None
  | Some m => Some (m + stab)
  end.

(** [a /= ...] on one sample. *)
Definition divide_sample (s : Sample) : option Sample :=
  match denom s with
  | None => None
  | Some d => Some (map (fun v => v / d) s)
  end.

(** [a = (a+1) / 2] on one sample. *)
Definition shift_sample (s : Sample) : Sample :=
  map (fun v => (v + 1) / 2) s.

(** Line 31 on the whole batch; [view(a.size(0), -1)] raises on a batch
    without samples. *)
Definition divide (a : Tensor) : option Tensor :=
  match a with
  | [] => None
  | _ => mapM divide_sample a
  end.

(** Lines 31-32: the tensor handed to [make_grid]. *)
Definition normalize (a : Tensor) : option Tensor :=
  match divide a with
  | None => None
  | Some a' => Some (map shift_sample a')
  end.

End Plotting.

(** ** Exceptions *)

(** Modelled from the spec: the errors of [lrp] (section 7), which is not
    part of this file; [RuntimeError] stands for what Python, numpy and
    torch raise themselves (index, shape and value errors). *)
Inductive Error : Type :=
  | UnknownRuleError
  | MissingPatternError
  | StaleActivationError
  | EmptyDatasetError
  | ShapeMismatchError
  | RuntimeError.

Inductive result (A : Type) : Type :=
  | Ok (a : A)
  | Raise (e : Error).
Arguments Ok {A} a.
Arguments Raise {A} e.

Definition rbind {A B} (r : result A) (k : A -> result B) : result B :=
  match r with
  | Ok a => k a
  | Raise e => Raise e
  end.

#[global] Instance result_bind : MBind result := fun A B k r => rbind r k.
#[global] Instance result_ret : MRet result := fun A a => Ok a.

Definition of_option {A} (o : option A) : result A :=
  match o with
  | Some a => Ok a
  | None => Raise RuntimeError
  end.

Definition is_Ok {A} (r : result A) : Prop :=
  match r with
  | Ok _ => True
  | Raise _ => False
  end.

(** ** Binary64 numbers *)

Module Binary64.
Import PrimFloat.

(** The literal [1e9] of line 144. *)
Definition billion : float := 1000000000%float.

(** [int(f)]: truncation towards zero; an infinity and a not-a-number
    raise. *)
Definition int (f : float) : option Z :=
  match FloatOps.Prim2SF f with
  | SpecFloat.S754_zero _ => Some 0%Z
  | SpecFloat.S754_finite neg m e =>
      let a := if (0 <=? e)%Z then (Z.pos m * 2 ^ e)%Z
               else (Z.pos m / 2 ^ (- e))%Z in
      Some (if neg then (- a)%Z else a)
  | SpecFloat.S754_infinity _ => None
  | SpecFloat.S754_nan => None
  end.

(** The binary64 value of an integer below [2**63]. *)
Definition of_Z (z : Z) : float := of_uint63 (Uint63.of_Z z).

End Binary64.

(** ** The script: [examples/explain_mnist.py] *)

Module Script.

Abbreviation Scores := (list (list Q)).

(** *** Argmax selection, lines 70 and 78 *)

(** Left-to-right scan for the maximum of a row; the index moves only on
    a strictly larger value, so the first maximal index is returned. *)
Fixpoint argmax_from (i : nat) (best : nat * Q) (row : list Q) : nat * Q :=
  match row with
  | [] => best
  | v :: row' =>
      argmax_from (S i) (if Qlt_le_dec (snd best) v then (i, v) else best) row'
  end.

(** [row.max()], as (index, value); raises on a row without elements. *)
Definition row_max (row : list Q) : option (nat * Q) :=
  match row with
  | [] => None
  | v :: row' => Some (argmax_from 1 (0%nat, v) row')
  end.

(** [y_hat.max(1)[1]] *)
Definition max1_indices (y_hat : Scores) : option (list nat) :=
  mapM (fun row => fst <$> row_max row) y_hat.

(** [y_hat[torch.arange(n), idx]]: entry [idx[k]] of row [k] for every
    [k < n].  Index tensors of different lengths and indices out of
    range raise. *)
Definition gather (n : nat) (y_hat : Scores) (idx : list nat) : option (list Q) :=
  if Nat.eqb n (length idx) then
    mapM (fun k => j ← idx !! k; row ← y_hat !! k; row !! j) (seq 0 n)
  else None.

(** Line 78 for a batch of [n] samples: the selected indices and the
    selected outputs. *)
Definition select_argmax (n : nat) (y_hat : Scores) : option (list nat * list Q) :=
  idx ← max1_indices y_hat;
  sel ← gather n y_hat idx;
  Some (idx, sel).

Definition one_hot (row : list Q) (j : nat) : list Q :=
  imap (fun i _ => if Nat.eqb i j then 1 else 0) row.

(** What [y_hat.sum().backward()] (lines 79 and 82) sends back into the
    forward output: the derivative of the sum of the selected entries,
    one at each selected position and zero elsewhere. *)
Definition seed (y_hat : Scores) (idx : list nat) : Scores :=
  zip_with one_hot y_hat idx.

(** [j] is the first index at which [row] takes its maximum [m]. *)
Definition first_max (row : list Q) (j : nat) (m : Q) : Prop :=
  row !! j = Some m /\
  (forall i v, row !! i = Some v -> v <= m) /\
  (forall i v, (i < j)%nat -> row !! i = Some v -> v < m).

(** *** The input tensor and its gradient slot *)

Record Input : Type := { x_data : Tensor; x_grad : option Tensor }.

Definition tensor_add (s t : Tensor) : Tensor := zip_with (zip_with Qplus) s t.
Definition tensor_mul (s t : Tensor) : Tensor := zip_with (zip_with Qmult) s t.

(** autograd writes a leaf's gradient into an empty [.grad] and adds it to
    a present one. *)
Definition accumulate (old : option Tensor) (g : Tensor) : Tensor :=
  match old with
  | None => g
  | Some o => tensor_add o g
  end.

(** *** The model collaborator

    [model.forward(x, explain=True, rule=..., pattern=...)] builds the
    graph that [backward()] later walks; both live in [lrp], outside this
    file, and neither changes the model. *)
Class ExplainModel : Type := {
  Pattern : Type;
  Graph : Type;
  forward : Tensor -> result Scores;
  forward_explain : string -> option Pattern -> Tensor -> result (Scores * Graph);
  backward : Graph -> Scores -> result Tensor
}.

(** What one call of [run_and_plot_rule] computes: the attribution as it
    stands after line 87, and what [plot_attribution] receives. *)
Record Run : Type := {
  attribution : Tensor;
  heat : Tensor;
  heat_cmap : string;
  plot_title : string
}.

(** What a [postprocess] does with the gradient object it is given: it
    builds a new tensor from it (line 116: [attribution * x]), or it works
    on the object itself and returns it (the identity, an in-place
    operation). *)
Inductive Postprocess : Type :=
  | NewTensor (f : Tensor -> Tensor)
  | InPlace (f : Tensor -> Tensor).

(** The value of [attr] after lines 85-87. *)
Definition post_value (postprocess : option Postprocess) (grad : Tensor) : Tensor :=
  match postprocess with
  | None => grad
  | Some (NewTensor f) => f grad
  | Some (InPlace f) => f grad
  end.

(** Whether [attr] is still the object [x.grad] after lines 85-87. *)
Definition post_aliases (postprocess : option Postprocess) : bool :=
  match postprocess with
  | None => true
  | Some (NewTensor _) => false
  | Some (InPlace _) => true
  end.

Section run_and_plot_rule.
Context `{M : ExplainModel}.

(** Lines 72-91.  [attr = x.grad] is the gradient object itself, so
    unless the postprocess builds a new tensor the in-place division of
    line 31 lands in [x.grad]. *)
Definition run_and_plot_rule (rule : string) (title : option string)
    (postprocess : option Postprocess) (pattern : option Pattern)
    (cmap : string) (st : Input) : result Run * Input :=
  let x := x_data st in
  let st0 := {| x_data := x; x_grad := None |} in
  match forward_explain rule pattern x with
  | Raise e => (Raise e, st0)
  | Ok (y_hat, graph) =>
      match select_argmax (length x) y_hat with
      | None => (Raise RuntimeError, st0)
      | Some (idx, _) =>
          match backward graph (seed y_hat idx) with
          | Raise e => (Raise e, st0)
          | Ok g =>
              let grad := accumulate (x_grad st0) g in
              let attr := post_value postprocess grad in
              let st1 := {| x_data := x;
                            x_grad := Some (if post_aliases postprocess
                                            then attr else grad) |} in
              match Plotting.divide attr with
              | None => (Raise RuntimeError, st1)
              | Some a' =>
                  let st2 := if post_aliases postprocess
                             then {| x_data := x; x_grad := Some a' |}
                             else st1 in
                  (Ok {| attribution := attr;
                         heat := map Plotting.shift_sample a';
                         heat_cmap := cmap;
                         plot_title := default rule title |}, st2)
              end
          end
      end
  end.

(** Lines 68-70: the predicted class of every sample. *)
Definition predict (x : Tensor) : result (list nat) :=
  y_hat ← forward x;
  of_option (max1_indices y_hat).

(** The same call with line 74 left out. *)
Definition run_without_reset (rule : string)
    (pattern : option Pattern) (st : Input) : result Tensor :=
  let x := x_data st in
  '(y_hat, graph) ← forward_explain rule pattern x;
  '(idx, _) ← of_option (select_argmax (length x) y_hat);
  g ← backward graph (seed y_hat idx);
  Ok (accumulate (x_grad st) g).

(** One call of [run_and_plot_rule] as [main] makes them. *)
Record Call : Type := {
  c_rule : string;
  c_title : option string;
  c_post : option Postprocess;
  c_pattern : option Pattern;
  c_cmap : string
}.

Definition call (c : Call) (st : Input) : result Run * Input :=
  run_and_plot_rule (c_rule c) (c_title c) (c_post c) (c_pattern c) (c_cmap c) st.

(** A sequence of calls on the same [x], every figure kept. *)
Fixpoint calls (cs : list Call) (st : Input) : list (result Run) * Input :=
  match cs with
  | [] => ([], st)
  | c :: cs' =>
      let '(r, st') := call c st in
      let '(rs, st'') := calls cs' st' in
      (r :: rs, st'')
  end.

End run_and_plot_rule.

(** *** The collaborators of [main]

    [utils] (model, training, data) and [lrp.patterns] (the fitters) are
    outside this file.  Each draws from the process-wide generators, so
    each takes and returns their states. *)

(** The three generators the entry point seeds. *)
Record Rngs (Gen : Type) : Type :=
  { py_random : Gen; np_random : Gen; torch_random : Gen }.
Arguments py_random {Gen} r.
Arguments np_random {Gen} r.
Arguments torch_random {Gen} r.

Class Collaborators : Type := {
  Gen : Type;
  Model : Type;
  Loader : Type;
  PatternSet : Type;
  (** [random.seed], [np.random.seed], [torch.manual_seed] *)
  random_seed : Z -> Gen;
  np_random_seed : Z -> Gen;
  torch_manual_seed : Z -> Gen;
  (** [random.random()], a binary64 value *)
  random_random : Gen -> PrimFloat.float * Gen;
  get_mnist_model : Rngs Gen -> Model * Rngs Gen;
  prepare_mnist_model : Model -> Z -> bool -> Rngs Gen -> Model * Rngs Gen;
  get_mnist_data : Z -> Loader * Loader;
  (** [next(iter(loader))]: the inputs of the first batch *)
  next_batch : Loader -> Rngs Gen -> result Tensor * Rngs Gen;
  fit_patternnet : Model -> Loader -> Rngs Gen -> result PatternSet * Rngs Gen;
  fit_patternnet_positive : Model -> Loader -> Rngs Gen -> result PatternSet * Rngs Gen
}.

Record Args : Type :=
  { batch_size : Z; train_new : bool; epochs : Z; arg_seed : option Z }.

Inductive Event : Type :=
  | EvFit (positive : bool)
  | EvStore (path : string)
  | EvLoad (path : string).

Section main.
Context `{C : Collaborators}.

(** The generators, the files holding pickled patterns, and what the
    run did to them, in order. *)
Record World : Type := {
  rngs : Rngs Gen;
  disk : gmap string PatternSet;
  trace : list Event
}.

(** Lines 143-149.  The product of line 144 is a binary64 product.
    [np.random.seed] accepts [0 <= s < 2**32] only and is called first;
    when it raises, no generator has been seeded. *)
Definition seed_all (seed : option Z) (r : Rngs Gen) : result Z * Rngs Gen :=
  let '(s, py) :=
    match seed with
    | Some s => (Some s, py_random r)
    | None =>
        let '(u, py') := random_random (py_random r) in
        (Binary64.int (PrimFloat.mul u Binary64.billion), py')
    end in
  let unseeded :=
    {| py_random := py; np_random := np_random r; torch_random := torch_random r |} in
  match s with
  | None => (Raise RuntimeError, unseeded)
  | Some s =>
      if ((0 <=? s) && (s <? 2 ^ 32))%Z then
        (Ok s, {| py_random := random_seed s;
                  np_random := np_random_seed s;
                  torch_random := torch_manual_seed s |})
      else (Raise RuntimeError, unseeded)
  end.

(** Lines 21-27: [pickle] writes the object and reads it back. *)
Definition store_patterns (file_name : string) (patterns : PatternSet)
    (w : World) : World :=
  {| rngs := rngs w;
     disk := <[file_name := patterns]> (disk w);
     trace := trace w ++ [EvStore file_name] |}.

Definition load_patterns (file_name : string) (w : World) : result PatternSet * World :=
  (of_option (disk w !! file_name),
   {| rngs := rngs w; disk := disk w; trace := trace w ++ [EvLoad file_name] |}).

(** [os.path.exists] *)
Definition exists_path (path : string) (w : World) : bool :=
  bool_decide (is_Some (disk w !! path)).

(** Lines 95-99 and 102-106: one block for each of the two fitters. *)
Definition fit_or_load
    (fit : Model -> Loader -> Rngs Gen -> result PatternSet * Rngs Gen)
    (positive : bool) (path : string) (model : Model) (train_loader : Loader)
    (w : World) : result PatternSet * World :=
  if negb (exists_path path w) then
    let '(r, g) := fit model train_loader (rngs w) in
    let w1 := {| rngs := g; disk := disk w;
                 trace := trace w ++ [EvFit positive] |} in
    match r with
    | Raise e => (Raise e, w1)
    | Ok patterns => (Ok patterns, store_patterns path patterns w1)
    end
  else load_patterns path w.

Definition all_patterns_path (base_path : string) : string :=
  base_path +:+ "/examples/pattern_all.pkl".
Definition pos_patterns_path (base_path : string) : string :=
  base_path +:+ "/examples/pattern_pos.pkl".

(** [x[:n]] *)
Definition slice_to (n : Z) (x : Tensor) : Tensor :=
  if (0 <=? n)%Z then take (Z.to_nat n) x
  else take (length x - Z.to_nat (- n)) x.

(** Lines 56-66 of [main]: the model, the training loader and the batch to
    explain. *)
Definition setup (args : Args) (w : World) : result (Model * Loader * Tensor) * World :=
  let num_samples_plot := Z.min (batch_size args) 16 in
  let '(model, g1) := get_mnist_model (rngs w) in
  let '(model, g2) := prepare_mnist_model model (epochs args) (train_new args) g1 in
  let '(train_loader, test_loader) := get_mnist_data (batch_size args) in
  let '(r, g3) := next_batch test_loader g2 in
  let w' := {| rngs := g3; disk := disk w; trace := trace w |} in
  match r with
  | Raise e => (Raise e, w')
  | Ok x => (Ok (model, train_loader, slice_to num_samples_plot x), w')
  end.

(** Lines 56-66 and 94-106 of [main]: the setup and both pattern sets.  The
    forward pass of lines 68-70 lies between them; it draws no random number
    and is taken to return. *)
Definition main_patterns (args : Args) (base_path : string) (w : World)
    : result (PatternSet * PatternSet) * World :=
  match setup args w with
  | (Raise e, w2) => (Raise e, w2)
  | (Ok (model, train_loader, x), w2) =>
      match fit_or_load fit_patternnet false (all_patterns_path base_path)
              model train_loader w2 with
      | (Raise e, w3) => (Raise e, w3)
      | (Ok patterns_all, w3) =>
          match fit_or_load fit_patternnet_positive true (pos_patterns_path base_path)
                  model train_loader w3 with
          | (Raise e, w4) => (Raise e, w4)
          | (Ok patterns_pos, w4) => (Ok (patterns_all, patterns_pos), w4)
          end
      end
  end.

(** The entry point up to the patterns: seed, then [main]. *)
Definition entry (args : Args) (base_path : string) (w : World)
    : result (PatternSet * PatternSet) * World :=
  let '(r, g) := seed_all (arg_seed args) (rngs w) in
  let w' := {| rngs := g; disk := disk w; trace := trace w |} in
  match r with
  | Raise e => (Raise e, w')
  | Ok s =>
      main_patterns
        {| batch_size := batch_size args; train_new := train_new args;
           epochs := epochs args; arg_seed := Some s |}
        base_path w'
  end.

End main.

End Script.

(** ** The attribution core ([lrp]), which the script calls *)

Module Engine.

(** Modelled from the spec: the nonlinearity tag of a layer; [lrp]'s layer
    classes are not part of this file. *)
Inductive Nonlin : Type := NoNonlin | ReLU.

(** Modelled from the spec: a layer of [lrp] (section 3): weight matrix
    (one row per output unit), bias, nonlinearity tag and the transient
    cache of the batch it last saw. *)
Record Layer : Type := {
  weight : list (list Q);
  bias : list Q;
  nonlin : Nonlin;
  cached : option Tensor
}.

(** Modelled from the spec: the rules of [lrp] (section 3). *)
Inductive Rule : Type :=
  | Gradient
  | Epsilon (eps : Q)
  | AlphaBeta (alpha beta : Q)
  | PatternAttribution
  | PatternNet.

(** Modelled from the spec: a fitted Pattern of [lrp.patterns]: for every
    output unit of the layer a direction vector over the layer's inputs. *)
Definition Pattern : Type := list (list Q).

(** Modelled from the spec: the PatternSet of [lrp.patterns], Patterns by
    layer index. *)
Definition PatternSet : Type := list Pattern.

(** Modelled from the spec: the [requires_pattern] capability of the
    Rule Registry (section 4.1). *)
Definition requires_pattern (r : Rule) : bool :=
  match r with
  | PatternAttribution | PatternNet => true
  | _ => false
  end.

(** Modelled from the spec: [resolve] of the Rule Registry (section 4.1),
    over the identifiers the script passes; the stabilizer of the epsilon
    rule is the [1e-6] of section 8. *)
Definition resolve (rule_id : string) : result Rule :=
  if String.eqb rule_id "gradient" then Ok Gradient
  else if String.eqb rule_id "epsilon" then Ok (Epsilon (1 # 1000000))
  else if String.eqb rule_id "alpha1beta0" then Ok (AlphaBeta 1 0)
  else if String.eqb rule_id "alpha2beta1" then Ok (AlphaBeta 2 1)
  else if String.eqb rule_id "patternattribution" then Ok PatternAttribution
  else if String.eqb rule_id "patternnet" then Ok PatternNet
  else Raise UnknownRuleError.

(** The identifiers the registry knows. *)
Definition registered : list string :=
  ["gradient"; "epsilon"; "alpha1beta0"; "alpha2beta1";
   "patternattribution"; "patternnet"].

(** *** Forward evaluation *)

Definition dot (u v : list Q) : Q := qsum (zip_with Qmult u v).

(** Modelled from the spec: the affine part of a layer of [lrp]. *)
Definition preact (l : Layer) (x : Sample) : Sample :=
  imap (fun j w => dot w x + nth j (bias l) 0) (weight l).

(** Modelled from the spec: the nonlinearity of a layer of [lrp]. *)
Definition act (n : Nonlin) (z : Q) : Q :=
  match n with
  | NoNonlin => z
  | ReLU => Qmax 0 z
  end.

(** Modelled from the spec: one layer of [lrp] on one sample. *)
Definition layer_out (l : Layer) (x : Sample) : Sample :=
  map (act (nonlin l)) (preact l x).

(** Modelled from the spec: the ordinary forward evaluation of [lrp]'s
    network. *)
Definition net_out (net : list Layer) (x : Tensor) : Tensor :=
  fold_left (fun t l => map (layer_out l) t) net x.

(** Modelled from the spec: the cache-filling sweep of the Explainable
    Forward Pass of [lrp] (section 4.2): every layer keeps the batch it is
    given. *)
Fixpoint fill (net : list Layer) (x : Tensor) : Tensor * list Layer :=
  match net with
  | [] => (x, [])
  | l :: net' =>
      let '(y, filled) := fill net' (map (layer_out l) x) in
      (y, {| weight := weight l; bias := bias l; nonlin := nonlin l;
             cached := Some x |} :: filled)
  end.

Definition has_cache (l : Layer) : bool :=
  match cached l with Some _ => true | None => false end.

(** Modelled from the spec: the Explainable Forward Pass of [lrp]
    (section 4.2); a call on layers that still hold a cache is an error. *)
Definition forward_explain (net : list Layer) (x : Tensor)
    : result (Tensor * list Layer) :=
  if existsb has_cache net then Raise StaleActivationError
  else Ok (fill net x).

(** Modelled from the spec: discarding the caches of [lrp]'s layers after
    the backward attribution (section 3, lifecycle). *)
Definition clear (net : list Layer) : list Layer :=
  map (fun l => {| weight := weight l; bias := bias l; nonlin := nonlin l;
                   cached := None |}) net.

(** *** Backward redistribution, one layer, one sample *)

Definition sgn (z : Q) : Q := if Qlt_le_dec z 0 then - (1) else 1.
Definition pos (q : Q) : Q := Qmax 0 q.
Definition neg (q : Q) : Q := Qmin 0 q.

(** The contributions [x_i * w_ji] of the inputs to output unit [j]. *)
Definition contrib (w : list Q) (x : Sample) : list Q :=
  imap (fun i xi => xi * nth i w 0) x.

(** Modelled from the spec: the local derivative of the nonlinearity of a
    layer of [lrp], for the chain rule of the gradient rule. *)
Definition dact (n : Nonlin) (z : Q) : Q :=
  match n with
  | NoNonlin => 1
  | ReLU => if Qlt_le_dec z 0 then 0 else if Qeq_dec z 0 then 0 else 1
  end.

(** Modelled from the spec: the share of the relevance of output unit [j]
    (weights [w], pre-activation [z], pattern direction [a]) that a rule of
    [lrp] hands to input [i] (section 4.4).  The relevance rules hand
    relevance through the nonlinearity as it is; the gradient rule and the
    pattern rules, which have its structure, use the local derivative.  A
    ratio over a zero sum is zero. *)
Definition share (r : Rule) (n : Nonlin) (w a : list Q) (z : Q)
    (x : Sample) (i : nat) (xi : Q) : Q :=
  match r with
  | Gradient => nth i w 0 * dact n z
  | Epsilon eps =>
      let zj := qsum (contrib w x) in
      xi * nth i w 0 / (zj + eps * sgn zj)
  | AlphaBeta alpha beta =>
      alpha * (pos (xi * nth i w 0) / qsum (map pos (contrib w x)))
      - beta * (neg (xi * nth i w 0) / qsum (map neg (contrib w x)))
  | PatternAttribution => nth i w 0 * nth i a 0 * dact n z
  | PatternNet => nth i a 0 * dact n z
  end.

(** Modelled from the spec: one relevance redistribution of the Backward
    Attributor of [lrp] (section 4.4): the relevance [R] at the outputs of
    layer [l], whose cached input is [x], becomes relevance at its
    inputs. *)
Definition redistribute (r : Rule) (l : Layer) (p : Pattern)
    (x : Sample) (R : Sample) : Sample :=
  imap (fun i xi =>
          qsum (imap (fun j Rj =>
                        let w := nth j (weight l) [] in
                        Rj * share r (nonlin l) w (nth j p [])
                               (dot w x + nth j (bias l) 0) x i xi) R)) x.

(** Modelled from the spec: one layer of the backward sweep of [lrp], with
    the errors of section 7. *)
Definition layer_backward (r : Rule) (l : Layer) (p : option Pattern)
    (x : Sample) (R : Sample) : result Sample :=
  if negb (Nat.eqb (length R) (length (weight l))) then Raise ShapeMismatchError
  else
    match requires_pattern r, p with
    | true, None => Raise MissingPatternError
    | _, _ => Ok (redistribute r l (default [] p) x R)
    end.

(** The cached input of layer [l] for sample [k]. *)
Definition cached_sample (l : Layer) (k : nat) : result Sample :=
  match cached l ≫= (.!! k) with
  | Some x => Ok x
  | None => Raise StaleActivationError
  end.

(** Modelled from the spec: the backward sweep of [lrp] for sample [k],
    from the output layer to the input layer, one redistribution per layer
    (section 4.4); [i] is the index of the first layer of [net]. *)
Fixpoint sweep (r : Rule) (pats : PatternSet) (k : nat) (i : nat)
    (net : list Layer) (R : Sample) : result Sample :=
  match net with
  | [] => Ok R
  | l :: net' =>
      R' ← sweep r pats k (S i) net' R;
      x ← cached_sample l k;
      layer_backward r l (pats !! i) x R'
  end.

(** *** What a sweep does to the total relevance *)

(** The part of the relevance of a unit that the stabilizer of the
    epsilon rule keeps: [eps / (|z| + eps)] for the sum [z] of the
    contributions to the unit. *)
Definition absorbed_unit (eps : Q) (w : list Q) (x : Sample) : Q :=
  let zj := qsum (contrib w x) in
  eps * sgn zj / (zj + eps * sgn zj).

Definition absorbed_layer (eps : Q) (l : Layer) (x : Sample) (R : Sample) : Q :=
  qsum (imap (fun j Rj => Rj * absorbed_unit eps (nth j (weight l) []) x) R).

(** The relevance the epsilon rule has absorbed by the end of the
    sweep of sample [k]. *)
Fixpoint absorbed (eps : Q) (pats : PatternSet) (k : nat) (i : nat)
    (net : list Layer) (R : Sample) : Q :=
  match net with
  | [] => 0
  | l :: net' =>
      absorbed eps pats k (S i) net' R
      + match sweep (Epsilon eps) pats k (S i) net' R, cached_sample l k with
        | Ok R', Ok x => absorbed_layer eps l x R'
        | _, _ => 0
        end
  end.

(** A unit splits its relevance completely when the positive
    contributions to it do not sum to zero and, unless [beta] is zero,
    neither do the negative ones. *)
Definition balanced_unit (beta : Q) (w : list Q) (x : Sample) : bool :=
  negb (Qeq_bool (qsum (map pos (contrib w x))) 0)
  && (Qeq_bool beta 0 || negb (Qeq_bool (qsum (map neg (contrib w x))) 0)).

(** Every unit of the layer that carries relevance is balanced. *)
Definition balanced_layer (beta : Q) (l : Layer) (x : Sample) (R : Sample) : bool :=
  forallb (fun b => b)
    (imap (fun j Rj => Qeq_bool Rj 0 || balanced_unit beta (nth j (weight l) []) x) R).

(** Every layer is balanced for the relevance that reaches it in the
    sweep of sample [k]. *)
Fixpoint balanced (alpha beta : Q) (pats : PatternSet) (k : nat) (i : nat)
    (net : list Layer) (R : Sample) : bool :=
  match net with
  | [] => true
  | l :: net' =>
      balanced alpha beta pats k (S i) net' R
      && match sweep (AlphaBeta alpha beta) pats k (S i) net' R, cached_sample l k with
         | Ok R', Ok x => balanced_layer beta l x R'
         | _, _ => true
         end
  end.

(** Modelled from the spec: the default [target_neuron_selector] of
    [attribute] (section 4.4), the argmax of the output per sample, and
    the relevance it seeds. *)
Definition select (selector : option (list nat)) (y : Tensor) : result Tensor :=
  idx ← match selector with
        | Some idx => Ok idx
        | None => of_option (Script.max1_indices y)
        end;
  if Nat.eqb (length idx) (length y) then Ok (Script.seed y idx)
  else Raise ShapeMismatchError.

(** Modelled from the spec: [attribute] of the Backward Attributor of
    [lrp] (section 4.4) on the layers a forward pass has filled. *)
Definition attribute (net : list Layer) (y : Tensor) (r : Rule)
    (pats : option PatternSet) (selector : option (list nat)) : result Tensor :=
  if requires_pattern r && negb (bool_decide (is_Some pats))
  then Raise MissingPatternError
  else
    R ← select selector y;
    mapM (fun '(k, Rk) => sweep r (default [] pats) k 0 net Rk) (imap pair R).

(** Modelled from the spec: the state of [lrp]'s network between calls:
    its layers and how many forward passes and backward sweeps it has
    started. *)
Record State : Type := {
  layers : list Layer;
  forward_passes : nat;
  backward_sweeps : nat
}.

(** Modelled from the spec: one attribution call on [lrp]'s network: the
    rule is resolved at call entry (section 4.1), then the explainable
    forward pass, then the backward attribution, after which the caches
    are discarded. *)
Definition explain (rule_id : string) (pats : option PatternSet)
    (selector : option (list nat)) (x : Tensor) (st : State)
    : result Tensor * State :=
  match resolve rule_id with
  | Raise e => (Raise e, st)
  | Ok r =>
      if requires_pattern r && negb (bool_decide (is_Some pats))
      then (Raise MissingPatternError, st)
      else
        match forward_explain (layers st) x with
        | Raise e => (Raise e, st)
        | Ok (y, filled) =>
            (attribute filled y r pats selector,
             {| layers := clear filled;
                forward_passes := S (forward_passes st);
                backward_sweeps := S (backward_sweeps st) |})
        end
  end.

End Engine.

(** ** The engine as the script's model collaborator *)

Module EngineModel.
Import Engine.

(** Modelled from the spec: what [model.forward(x, explain=True, ...)] of
    [lrp] leaves for [backward()]: the resolved rule, the patterns and the
    layers with their caches filled. *)
Record Graph : Type := {
  g_rule : Rule;
  g_patterns : option PatternSet;
  g_layers : list Layer
}.

(** Modelled from the spec: [model.forward] of the Model collaborator
    (section 6) in explain mode, on [lrp]'s layers [net]. *)
Definition forward_explain (net : list Layer) (rule_id : string)
    (pattern : option PatternSet) (x : Tensor) : result (Script.Scores * Graph) :=
  r ← resolve rule_id;
  if requires_pattern r && negb (bool_decide (is_Some pattern))
  then Raise MissingPatternError
  else
    '(y, filled) ← Engine.forward_explain net x;
    Ok (y, {| g_rule := r; g_patterns := pattern; g_layers := filled |}).

(** Modelled from the spec: the backward pass [backward()] triggers in
    [lrp]: the sweep of every sample from the relevance seeded at the
    output. *)
Definition backward (g : Graph) (R : Script.Scores) : result Tensor :=
  mapM (fun '(k, Rk) =>
          sweep (g_rule g) (default [] (g_patterns g)) k 0 (g_layers g) Rk)
       (imap pair R).

(** Modelled from the spec: [lrp]'s network [net] as the model the script
    explains. *)
Definition model (net : list Layer) : Script.ExplainModel :=
  {| Script.Pattern := PatternSet;
     Script.Graph := Graph;
     Script.forward := fun x => Ok (net_out net x);
     Script.forward_explain := forward_explain net;
     Script.backward := backward |}.

End EngineModel.

(** ** The Pattern Fitter ([lrp.patterns]) *)

Module Fitter.
Import Engine.

(** Modelled from the spec: the strategy variants of [fit] in
    [lrp.patterns] (section 4.3). *)
Inductive Variant : Type := AllData | PositiveOnly.

(** Modelled from the spec: the accumulators of [lrp.patterns] for one
    output unit (section 4.3): running count, running sum of activations,
    running sum of output-weighted activations. *)
Record Acc : Type := { count : Q; sum_x : list Q; sum_xy : list Q }.

(** Modelled from the spec: which samples a variant of [lrp.patterns]
    counts for a unit with output [y]: all, or those whose pre-activation
    is positive. *)
Definition keep (v : Variant) (y : Q) : bool :=
  match v with
  | AllData => true
  | PositiveOnly => if Qlt_le_dec 0 y then true else false
  end.

(** The output of the unit with weights [w] and bias [b]. *)
Definition unit_out (w : list Q) (b : Q) (x : Sample) : Q := dot w x + b.

Definition acc_init (d : nat) : Acc :=
  {| count := 0; sum_x := repeat 0 d; sum_xy := repeat 0 d |}.

(** Modelled from the spec: one streaming update of the accumulators of
    [lrp.patterns] with the activation [x]. *)
Definition acc_add (v : Variant) (w : list Q) (b : Q) (a : Acc) (x : Sample) : Acc :=
  let y := unit_out w b x in
  if keep v y then
    {| count := count a + 1;
       sum_x := imap (fun i s => s + nth i x 0) (sum_x a);
       sum_xy := imap (fun i s => s + y * nth i x 0) (sum_xy a) |}
  else a.

(** Modelled from the spec: the closed-form Pattern of [lrp.patterns] from
    the accumulators: the covariance of activation and output over the
    covariance of projected activation and output.  This is the formula in
    exact arithmetic, where a quotient by zero is zero;
    [FitterBinary64.direction_one_pass] is the same formula in binary64,
    where rounding and not-a-number show. *)
Definition direction_of_acc (w : list Q) (b : Q) (a : Acc) : list Q :=
  let n := count a in
  let mean_y := dot w (map (fun s => s / n) (sum_x a)) + b in
  let cov := imap (fun i sxy => sxy / n - (nth i (sum_x a) 0 / n) * mean_y)
                  (sum_xy a) in
  map (fun c => c / dot w cov) cov.

(** The units of a layer: weight row and bias. *)
Definition units (l : Layer) : list (list Q * Q) :=
  imap (fun j w => (w, nth j (bias l) 0)) (weight l).

(** Modelled from the spec: the accumulators of [lrp.patterns] for the
    layers of a network, one per unit, before the pass. *)
Definition init (net : list Layer) : list (list Acc) :=
  map (fun l => map (fun u => acc_init (length (fst u))) (units l)) net.

(** Modelled from the spec: streaming one sample of [lrp.patterns]'s pass
    through the layers, updating every layer's accumulators with the
    activation that layer receives. *)
Fixpoint feed (v : Variant) (net : list Layer) (accs : list (list Acc))
    (x : Sample) : list (list Acc) :=
  match net, accs with
  | l :: net', a :: accs' =>
      zip_with (fun u acc => acc_add v (fst u) (snd u) acc x) (units l) a
      :: feed v net' accs' (layer_out l x)
  | _, _ => []
  end.

(** Modelled from the spec: the Patterns of [lrp.patterns] after the
    pass. *)
Definition finish (net : list Layer) (accs : list (list Acc)) : PatternSet :=
  zip_with (fun l a => zip_with (fun u acc => direction_of_acc (fst u) (snd u) acc)
                                (units l) a) net accs.

(** Modelled from the spec: [fit] of the Pattern Fitter of [lrp.patterns]
    (section 4.3): one streaming pass over the batches. *)
Definition fit (v : Variant) (net : list Layer) (batches : list Tensor)
    : result PatternSet :=
  let '(nb, accs) :=
    fold_left (fun '(nb, accs) batch => (S nb, fold_left (feed v net) batch accs))
              batches (0%nat, init net) in
  if Nat.eqb nb 0 then Raise EmptyDatasetError else Ok (finish net accs).

(** *** The streaming pass, unit by unit *)

(** The number of collected samples, as a rational. *)
Definition size (K : list Sample) : Q := inject_Z (Z.of_nat (length K)).

(** What the pass leaves for one unit. *)
Definition direction_one_pass (v : Variant) (w : list Q) (b : Q)
    (xs : list Sample) : list Q :=
  direction_of_acc w b (fold_left (acc_add v w b) xs (acc_init (length w))).

(** The Patterns the streaming pass leaves, layer by layer. *)
Fixpoint collect_one_pass (v : Variant) (net : list Layer) (xs : list Sample)
    : PatternSet :=
  match net with
  | [] => []
  | l :: net' =>
      map (fun u => direction_one_pass v (fst u) (snd u) xs) (units l)
      :: collect_one_pass v net' (map (layer_out l) xs)
  end.

(** Coordinate [i] of the covariance the accumulators give. *)
Definition cov_acc (w : list Q) (b : Q) (a : Acc) (i : nat) : Q :=
  nth i (sum_xy a) 0 / count a
  - nth i (sum_x a) 0 / count a
    * (dot w (map (fun s => s / count a) (sum_x a)) + b).

(** *** The two-pass computation *)

Definition mean (l : list Q) : Q := qsum l / inject_Z (Z.of_nat (length l)).

(** The covariance of two collected series, from its definition. *)
Definition covariance (us vs : list Q) : Q :=
  mean (zip_with (fun u v => (u - mean us) * (v - mean vs)) us vs).

(** Modelled from the spec: the batch computation of section 4.3 for one
    unit, on the collected activations [xs]: the covariance of every
    activation coordinate with the output, over the covariance of the
    projected activation with the output. *)
Definition direction_two_pass (v : Variant) (w : list Q) (b : Q)
    (xs : list Sample) : list Q :=
  let kept := filter (fun x => keep v (unit_out w b x) = true) xs in
  let ys := map (unit_out w b) kept in
  let den := covariance (map (dot w) kept) ys in
  map (fun i => covariance (map (fun x => nth i x 0) kept) ys / den)
      (seq 0 (length w)).

(** Modelled from the spec: the two-pass computation of section 4.3 over
    the layers: all activations of a layer are collected first. *)
Fixpoint collect (v : Variant) (net : list Layer) (xs : list Sample) : PatternSet :=
  match net with
  | [] => []
  | l :: net' =>
      map (fun u => direction_two_pass v (fst u) (snd u) xs) (units l)
      :: collect v net' (map (layer_out l) xs)
  end.

Definition fit_two_pass (v : Variant) (net : list Layer) (batches : list Tensor)
    : result PatternSet :=
  match batches with
  | [] => Raise EmptyDatasetError
  | _ => Ok (collect v net (concat batches))
  end.

(** The denominator of a unit's Pattern: the covariance of the projected
    activation with the output over the samples the variant counts. *)
Definition projected_covariance (v : Variant) (w : list Q) (b : Q)
    (xs : list Sample) : Q :=
  let kept := filter (fun x => keep v (unit_out w b x) = true) xs in
  covariance (map (dot w) kept) (map (unit_out w b) kept).

(** No unit of the network has a vanishing denominator on the activations
    it receives: no quotient of either computation is a quotient by
    zero. *)
Fixpoint regular (v : Variant) (net : list Layer) (xs : list Sample) : Prop :=
  match net with
  | [] => True
  | l :: net' =>
      Forall (fun u => ~ projected_covariance v (fst u) (snd u) xs == 0) (units l)
      /\ regular v net' (map (layer_out l) xs)
  end.

(** *** The fitter as the script's collaborator *)

(** What [utils] provides: generators, model and data.  Iterating a loader
    draws its batch order from torch's generator. *)
Class Setup : Type := {
  Gen : Type;
  random_seed : Z -> Gen;
  np_random_seed : Z -> Gen;
  torch_manual_seed : Z -> Gen;
  random_random : Gen -> PrimFloat.float * Gen;
  get_mnist_model : Script.Rngs Gen -> list Layer * Script.Rngs Gen;
  prepare_mnist_model :
    list Layer -> Z -> bool -> Script.Rngs Gen -> list Layer * Script.Rngs Gen;
  get_mnist_data : Z -> (Gen -> list Tensor * Gen) * (Gen -> list Tensor * Gen)
}.

(** [next(iter(loader))] on such a loader; it raises on a loader that
    yields nothing. *)
Definition first_batch `{Setup} (loader : Gen -> list Tensor * Gen)
    (r : Script.Rngs Gen) : result Tensor * Script.Rngs Gen :=
  let '(batches, g) := loader (Script.torch_random r) in
  (match batches with
   | [] => Raise RuntimeError
   | x :: _ => Ok x
   end,
   {| Script.py_random := Script.py_random r;
      Script.np_random := Script.np_random r;
      Script.torch_random := g |}).

(** Modelled from the spec: [fit_patternnet] and [fit_patternnet_positive]
    of [lrp.patterns]: one pass of [fit] over the loader's batches. *)
Definition fit_loader `{Setup} (v : Variant) (model : list Layer)
    (loader : Gen -> list Tensor * Gen) (r : Script.Rngs Gen)
    : result PatternSet * Script.Rngs Gen :=
  let '(batches, g) := loader (Script.torch_random r) in
  (fit v model batches,
   {| Script.py_random := Script.py_random r;
      Script.np_random := Script.np_random r;
      Script.torch_random := g |}).

Definition collaborators `{Setup} : Script.Collaborators :=
  {| Script.Gen := Gen;
     Script.Model := list Layer;
     Script.Loader := Gen -> list Tensor * Gen;
     Script.PatternSet := PatternSet;
     Script.random_seed := random_seed;
     Script.np_random_seed := np_random_seed;
     Script.torch_manual_seed := torch_manual_seed;
     Script.random_random := random_random;
     Script.get_mnist_model := get_mnist_model;
     Script.prepare_mnist_model := prepare_mnist_model;
     Script.get_mnist_data := get_mnist_data;
     Script.next_batch := first_batch;
     Script.fit_patternnet := fit_loader AllData;
     Script.fit_patternnet_positive := fit_loader PositiveOnly |}.

End Fitter.

(** ** The two computations of the Pattern Fitter over any arithmetic *)

Module Formulas.
Import Fitter.

Section Arith.
Variable num : Type.
Variables zero one : num.
Variables add sub mul div : num -> num -> num.
Variable positive : num -> bool.
Variable of_nat : nat -> num.

Definition gsum (l : list num) : num := fold_right add zero l.

Definition gdot (u v : list num) : num := gsum (zip_with mul u v).

Definition gunit_out (w : list num) (b : num) (x : list num) : num :=
  add (gdot w x) b.

Definition gkeep (v : Variant) (y : num) : bool :=
  match v with
  | AllData => true
  | PositiveOnly => positive y
  end.

(** Modelled from the spec: the accumulators of section 4.3 for one unit
    (running count, running sum of activations, running sum of
    output-weighted activations), their streaming update and the
    closed-form Pattern, as [Fitter.acc_add] and [Fitter.direction_of_acc]
    have them, with the arithmetic left open. *)
Record GAcc : Type := { gcount : num; gsum_x : list num; gsum_xy : list num }.

Definition gacc_init (d : nat) : GAcc :=
  {| gcount := zero; gsum_x := repeat zero d; gsum_xy := repeat zero d |}.

Definition gacc_add (v : Variant) (w : list num) (b : num) (a : GAcc)
    (x : list num) : GAcc :=
  let y := gunit_out w b x in
  if gkeep v y then
    {| gcount := add (gcount a) one;
       gsum_x := imap (fun i s => add s (nth i x zero)) (gsum_x a);
       gsum_xy := imap (fun i s => add s (mul y (nth i x zero))) (gsum_xy a) |}
  else a.

Definition gdirection_of_acc (w : list num) (b : num) (a : GAcc) : list num :=
  let n := gcount a in
  let mean_y := add (gdot w (map (fun s => div s n) (gsum_x a))) b in
  let cov := imap (fun i sxy => sub (div sxy n)
                                    (mul (div (nth i (gsum_x a) zero) n) mean_y))
                  (gsum_xy a) in
  map (fun c => div c (gdot w cov)) cov.

(** The streaming pass for one unit. *)
Definition gdirection_one_pass (v : Variant) (w : list num) (b : num)
    (xs : list (list num)) : list num :=
  gdirection_of_acc w b (fold_left (gacc_add v w b) xs (gacc_init (length w))).

Definition gmean (l : list num) : num := div (gsum l) (of_nat (length l)).

Definition gcovariance (us vs : list num) : num :=
  gmean (zip_with (fun u v => mul (sub u (gmean us)) (sub v (gmean vs))) us vs).

(** Modelled from the spec: the batch computation of section 4.3 for one
    unit, as [Fitter.direction_two_pass] has it, with the arithmetic left
    open. *)
Definition gdirection_two_pass (v : Variant) (w : list num) (b : num)
    (xs : list (list num)) : list num :=
  let kept := filter (fun x => gkeep v (gunit_out w b x) = true) xs in
  let ys := map (gunit_out w b) kept in
  let den := gcovariance (map (gdot w) kept) ys in
  map (fun i => div (gcovariance (map (fun x => nth i x zero) kept) ys) den)
      (seq 0 (length w)).

End Arith.

(** The formulas over the rationals. *)
Definition one_pass_Q : Variant -> list Q -> Q -> list (list Q) -> list Q :=
  gdirection_one_pass Q 0 1 Qplus Qminus Qmult Qdiv
    (fun y => if Qlt_le_dec 0 y then true else false).

Definition two_pass_Q : Variant -> list Q -> Q -> list (list Q) -> list Q :=
  gdirection_two_pass Q 0 Qplus Qminus Qmult Qdiv
    (fun y => if Qlt_le_dec 0 y then true else false)
    (fun n => inject_Z (Z.of_nat n)).

End Formulas.

(** ** The Pattern Fitter in binary64 *)

Module FitterBinary64.
Import PrimFloat Fitter Formulas.

(** Modelled from the spec: the streaming pass of section 4.3 for one
    unit, computed in binary64. *)
Definition direction_one_pass
    : Variant -> list float -> float -> list (list float) -> list float :=
  gdirection_one_pass float 0%float 1%float add sub mul div (ltb 0%float).

(** Modelled from the spec: the two-pass computation of section 4.3 for
    one unit, computed in binary64. *)
Definition direction_two_pass
    : Variant -> list float -> float -> list (list float) -> list float :=
  gdirection_two_pass float 0%float add sub mul div (ltb 0%float)
    (fun n => Binary64.of_Z (Z.of_nat n)).

(** The tolerance [1e-5] as a binary64 value. *)
Definition tol : float := div 1%float 100000%float.

Definition close (a b : float) : bool := leb (abs (sub a b)) tol.

(** Three activations of two coordinates, near [1e8] and a few units
    apart. *)
Definition far_xs : list (list float) :=
  [[100000001; 100000000]; [100000000; 100000002]; [100000003; 100000001]]%float.

Definition far_w : list float := [1; 1]%float.

Definition no_bias : float := 0%float.

(** What the streaming pass returns on [far_xs]. *)
Definition far_w_one_pass : list float := [1; 0]%float.

(** A training set of one activation. *)
Definition lone_xs : list (list float) := [[1; 2]]%float.

End FitterBinary64.

(** ** Small concrete inputs *)

Module Examples.
Import Script.

(** A network of one linear layer with two output units, and a batch of
    two samples whose gradient slot is already in use. *)
Definition net1 : list Engine.Layer :=
  [{| Engine.weight := [[1; 2]; [3; - (4)]]; Engine.bias := [0; 0];
      Engine.nonlin := Engine.NoNonlin; Engine.cached := None |}].
Definition x1 : Input :=
  {| x_data := [[1; 1]; [2; 1]]; x_grad := Some [[5; 5]; [5; 5]] |}.

(** A network of two layers with a rectified first layer. *)
Definition net2 : list Engine.Layer :=
  [{| Engine.weight := [[1; 2]; [3; - (4)]]; Engine.bias := [0; 1];
      Engine.nonlin := Engine.ReLU; Engine.cached := None |};
   {| Engine.weight := [[1; 1]; [1; - (1)]]; Engine.bias := [0; 0];
      Engine.nonlin := Engine.NoNonlin; Engine.cached := None |}].

(** One linear unit on one input. *)
Definition net_one : list Engine.Layer :=
  [{| Engine.weight := [[1]]; Engine.bias := [0];
      Engine.nonlin := Engine.NoNonlin; Engine.cached := None |}].

(** Two linear units, the first with weights of both signs. *)
Definition net_mixed : list Engine.Layer :=
  [{| Engine.weight := [[1; - (1)]; [0; 0]]; Engine.bias := [0; 0];
      Engine.nonlin := Engine.NoNonlin; Engine.cached := None |}].

(** One linear unit with positive weights on two inputs. *)
Definition net_pos : list Engine.Layer :=
  [{| Engine.weight := [[1; 2]]; Engine.bias := [0];
      Engine.nonlin := Engine.NoNonlin; Engine.cached := None |}].

Definition fresh (net : list Engine.Layer) : Engine.State :=
  {| Engine.layers := net; Engine.forward_passes := 0; Engine.backward_sweeps := 0 |}.

Definition batches1 : list Tensor :=
  [[[1; 1]; [2; 1]]; [[0; 3]; [1; - (1)]; [2; 5]]].

(** The binary64 value nearest to [g] billionths. *)
Definition billionths (g : Z) : PrimFloat.float :=
  PrimFloat.div (Binary64.of_Z g) Binary64.billion.

(** Collaborators whose generators are counters: the initial model and
    the loader's batch order depend on torch's generator, and training
    anew gives [net2]. *)
Definition toy_setup : Fitter.Setup :=
  {| Fitter.Gen := Z;
     Fitter.random_seed := fun s => s;
     Fitter.np_random_seed := fun s => s;
     Fitter.torch_manual_seed := fun s => s;
     Fitter.random_random := fun g => (billionths g, (g + 1)%Z);
     Fitter.get_mnist_model :=
       fun r => (if Z.even (torch_random r) then net1 else net2, r);
     Fitter.prepare_mnist_model :=
       fun m _ train_new r => (if train_new : bool then net2 else m, r);
     Fitter.get_mnist_data :=
       fun _ => (fun g => (if Z.even g then batches1 else rev batches1, (g + 1)%Z),
                 fun g => (batches1, g)) |}.

(** The same collaborators with a training set that yields no batch. *)
Definition empty_setup : Fitter.Setup :=
  {| Fitter.Gen := Z;
     Fitter.random_seed := fun s => s;
     Fitter.np_random_seed := fun s => s;
     Fitter.torch_manual_seed := fun s => s;
     Fitter.random_random := fun g => (billionths g, (g + 1)%Z);
     Fitter.get_mnist_model := fun r => (net2, r);
     Fitter.prepare_mnist_model := fun m _ _ r => (m, r);
     Fitter.get_mnist_data := fun _ => (fun g => ([], g), fun g => (batches1, g)) |}.

Definition toy_args (train : bool) (seed : option Z) : Args :=
  {| batch_size := 128; train_new := train; epochs := 5; arg_seed := seed |}.

Definition stale_all : Engine.PatternSet := [[[1; 0]; [0; 1]]].
Definition stale_pos : Engine.PatternSet := [[[1; 1]; [1; 1]]].

Definition toy : Collaborators := @Fitter.collaborators toy_setup.

Definition toy_rngs (g : Z) : Rngs Z :=
  {| py_random := g; np_random := g; torch_random := g |}.

(** A world in which both pattern files exist. *)
Definition toy_world (g : Z) : @World toy :=
  @Build_World toy (toy_rngs g)
    (<[all_patterns_path "/repo" := stale_all]>
       (<[pos_patterns_path "/repo" := stale_pos]> ∅))
    [].

(** A world without pattern files. *)
Definition fresh_world (g : Z) : @World toy :=
  @Build_World toy (toy_rngs g) ∅ [].

(** The activations [FitterBinary64.far_xs] as rationals, in one batch. *)
Definition far_batches : list Tensor :=
  [[[100000001; 100000000]; [100000000; 100000002]; [100000003; 100000001]]].

(** One linear unit with weights [(1, 1)]. *)
Definition net_sum : list Engine.Layer :=
  [{| Engine.weight := [[1; 1]]; Engine.bias := [0];
      Engine.nonlin := Engine.NoNonlin; Engine.cached := None |}].

(** Collaborators whose positive fitter raises. *)
Definition flaky : Collaborators :=
  {| Gen := Z; Model := unit; Loader := unit; PatternSet := nat;
     random_seed := fun s => s;
     np_random_seed := fun s => s;
     torch_manual_seed := fun s => s;
     random_random := fun g => (billionths g, (g + 1)%Z);
     get_mnist_model := fun r => (tt, r);
     prepare_mnist_model := fun m _ _ r => (m, r);
     get_mnist_data := fun _ => (tt, tt);
     next_batch := fun _ r => (Ok [[1; 2]], r);
     fit_patternnet := fun _ _ r => (Ok 1%nat, r);
     fit_patternnet_positive := fun _ _ r => (Raise RuntimeError, r) |}.

(** A world of [flaky] without files. *)
Definition flaky_world : @World flaky :=
  @Build_World flaky (toy_rngs 3) ∅ [].

(** A world in which only the second pattern file exists. *)
Definition half_world (g : Z) : @World toy :=
  @Build_World toy (toy_rngs g)
    (<[pos_patterns_path "/repo" := stale_pos]> ∅) [].

End Examples.

(** ** The figure: the rest of [prepare_batch_for_plotting], and
    [plot_attribution] *)

Module Figure.

(** An array of pixels: rows, columns, channels. *)
Abbreviation Image := (list (list (list Q))).

(** [torchvision.utils.make_grid], [plt.get_cmap] and [Axes.imshow] are
    libraries; a grid has channels, rows, columns, a colormap sends a
    value to its four channels, and [imshow] raises on an array it does
    not take for an image. *)
Class PlotLib : Type := {
  make_grid : Tensor -> nat -> list (list (list Q));
  get_cmap : string -> Q -> list Q;
  imshow_accepts : list (list (list Q)) -> bool
}.

(** [grid.permute(1, 2, 0)]: from channels, rows, columns to rows, columns,
    channels; the sizes are those of the first channel and its first row. *)
Definition permute_1_2_0 (grid : list (list (list Q))) : Image :=
  let h := length (hd [] grid) in
  let w := length (hd [] (hd [] grid)) in
  map (fun r => map (fun c => map (fun ch => nth c (nth r ch []) 0) grid) (seq 0 w))
      (seq 0 h).

(** [t.mean()] of a vector. *)
Definition vector_mean (l : list Q) : Q := qsum l / inject_Z (Z.of_nat (length l)).

(** [grid.mean(-1)] *)
Definition mean_last (grid : Image) : list (list Q) := map (map vector_mean) grid.

(** [t.reshape(h, w, ...)] of a sequence of [h * w] items. *)
Definition reshape_rows {A} (h w : nat) (l : list A) : list (list A) :=
  map (fun r => take w (drop (r * w) l)) (seq 0 h).

(** Lines 29-43. *)
Definition prepare_batch_for_plotting `{PlotLib} (a : Tensor) (nrow : nat)
    (cmap : string) : option Image :=
  match Plotting.normalize a with
  | None => None
  | Some a' =>
      let grid := make_grid a' nrow in
      let grid := permute_1_2_0 grid in
      let grid := mean_last grid in
      let cm := get_cmap cmap in
      let colors := map cm (concat grid) in
      Some (reshape_rows (length grid) (length (hd [] grid)) colors)
  end.

(** What a matplotlib axes has been given. *)
Record Axes : Type := {
  ax_image : option Image;
  ax_axis_off : bool;
  ax_texts : list (Z * Z * nat);
  ax_title : option string
}.

(** [range(n)] *)
Definition range (n : Z) : list nat := seq 0 (Z.to_nat n).

(** The cells [(i, j)] in the order the two loops of lines 50-51 visit
    them. *)
Definition cells (rows cols : Z) : list (nat * nat) :=
  concat (map (fun i => map (fun j => (i, j)) (range cols)) (range rows)).

(** Line 52 for the cells still to visit: [preds[i*4+j]] raises on an
    index past the end, and the texts written before stay. *)
Fixpoint write_texts (todo : list (nat * nat)) (preds : list nat) (ax : Axes)
    : result unit * Axes :=
  match todo with
  | [] => (Ok tt, ax)
  | (i, j) :: todo' =>
      match preds !! (i * 4 + j)%nat with
      | None => (Raise RuntimeError, ax)
      | Some p =>
          write_texts todo' preds
            {| ax_image := ax_image ax; ax_axis_off := ax_axis_off ax;
               ax_texts := ax_texts ax
                           ++ [((28 + Z.of_nat j * 30)%Z, (30 + Z.of_nat i * 30)%Z, p)];
               ax_title := ax_title ax |}
      end
  end.

(** [a.shape[0]] and [a.shape[1]] *)
Definition shape0 (a : Image) : Z := Z.of_nat (length a).
Definition shape1 (a : Image) : Z := Z.of_nat (length (hd [] a)).

(** Lines 45-53.  When [imshow] raises at line 46 nothing has been done
    to the axes. *)
Definition plot_attribution `{PlotLib} (a : Image) (ax_ : Axes) (preds : list nat)
    (title : string) : result unit * Axes :=
  if imshow_accepts a then
    let ax1 := {| ax_image := Some a; ax_axis_off := true;
                  ax_texts := ax_texts ax_; ax_title := ax_title ax_ |} in
    let cols := ((shape1 a - 2) / 30)%Z in
    let rows := ((shape0 a - 2) / 30)%Z in
    match write_texts (cells rows cols) preds ax1 with
    | (Raise e, ax2) => (Raise e, ax2)
    | (Ok _, ax2) =>
        (Ok tt, {| ax_image := ax_image ax2; ax_axis_off := ax_axis_off ax2;
                   ax_texts := ax_texts ax2; ax_title := Some title |})
    end
  else (Raise RuntimeError, ax_).

(** The numbers of rows and columns of labels, lines 48-49. *)
Definition label_rows (a : Image) : nat := Z.to_nat ((shape0 a - 2) / 30).
Definition label_cols (a : Image) : nat := Z.to_nat ((shape1 a - 2) / 30).

(** The index line 52 reads for a cell. *)
Definition pred_index (c : nat * nat) : nat := (fst c * 4 + snd c)%nat.

(** The text line 52 writes for cell [(i, j)]. *)
Definition label (preds : list nat) (c : nat * nat) : Z * Z * nat :=
  ((28 + Z.of_nat (snd c) * 30)%Z, (30 + Z.of_nat (fst c) * 30)%Z,
   default 0%nat (preds !! (fst c * 4 + snd c)%nat)).

(** The axes with more texts. *)
Definition add_texts (ax : Axes) (ts : list (Z * Z * nat)) : Axes :=
  {| ax_image := ax_image ax; ax_axis_off := ax_axis_off ax;
     ax_texts := ax_texts ax ++ ts; ax_title := ax_title ax |}.

(** An image of [h] rows and [w] columns of one colour. *)
Definition blank (h w : nat) : Image := repeat (repeat [0; 0; 0; 1] w) h.

Definition empty_axes : Axes :=
  {| ax_image := None; ax_axis_off := false; ax_texts := []; ax_title := None |}.

(** A library whose grid is the batch itself as one channel, whose
    colormap is grey, and whose [imshow] takes the arrays that have a row
    and three or four channels in every pixel. *)
Definition toy_lib : PlotLib :=
  {| make_grid := fun a _ => [a];
     get_cmap := fun _ v => [v; v; v; 1];
     imshow_accepts := fun a =>
       negb (Nat.eqb (length a) 0)
       && forallb (forallb (fun px => Nat.eqb (length px) 3
                                      || Nat.eqb (length px) 4)) a |}.

(** A batch of an all-zero sample and an ordinary one. *)
Definition two_samples : Tensor := [[0; 0]; [1; - (2)]].

(** A value the colormap accepts. *)
Definition in_unit (v : Q) : Prop := (0 <= v /\ v <= 1)%Q.

(** The map of lines 31-32 on a sample with denominator [d]. *)
Definition rescale (d v : Q) : Q := ((v / d + 1) / 2)%Q.

End Figure.

(** * Properties *)

(** ** Sums of rationals *)

Section Sums.


Lemma qsum_ext {A} (f g : A -> Q) (l : list A) :
  (forall a, a ∈ l -> f a == g a) -> qsum (map f l) == qsum (map g l).
Proof.
  induction l as [|a l IH]; intros Hfg; simpl.
  - reflexivity.
  - rewrite (Hfg a) by left. rewrite IH; [reflexivity|].
    intros b Hb. apply Hfg. by right.
Qed.

Lemma qsum_imap_ext {A} (f g : nat -> A -> Q) (l : list A) :
  (forall i a, l !! i = Some a -> f i a == g i a) ->
  qsum (imap f l) == qsum (imap g l).
Proof.
  revert f g. induction l as [|a l IH]; intros f g Hfg; simpl.
  - reflexivity.
  - rewrite (Hfg 0%nat a) by done. rewrite (IH (f ∘ S) (g ∘ S)); [reflexivity|].
    intros i b Hb. apply (Hfg (S i)). done.
Qed.

Lemma qsum_imap_plus {A} (f g : nat -> A -> Q) (l : list A) :
  qsum (imap (fun i a => f i a + g i a) l) == qsum (imap f l) + qsum (imap g l).
Proof.
  revert f g. induction l as [|a l IH]; intros f g; simpl.
  - ring.
  - change (qsum (imap (fun i a => (f ∘ S) i a + (g ∘ S) i a) l))
      with (qsum (imap ((fun i a => f i a + g i a) ∘ S) l)) in IH.
    rewrite (IH (f ∘ S) (g ∘ S)). ring.
Qed.

Lemma qsum_imap_scale {A} (c : Q) (f : nat -> A -> Q) (l : list A) :
  qsum (imap (fun i a => c * f i a) l) == c * qsum (imap f l).
Proof.
  revert f. induction l as [|a l IH]; intros f; simpl.
  - ring.
  - rewrite (IH (f ∘ S)). ring.
Qed.

Lemma qsum_imap_zero {A} (f : nat -> A -> Q) (l : list A) :
  (forall i a, f i a == 0) -> qsum (imap f l) == 0.
Proof.
  revert f. induction l as [|a l IH]; intros f Hf; simpl; [reflexivity|].
  rewrite Hf, (IH (f ∘ S)); [ring|]. intros i b. apply Hf.
Qed.

(** Summing over the inputs and over the output units commute. *)
Lemma qsum_imap_swap {A B} (f : nat -> A -> nat -> B -> Q)
    (la : list A) (lb : list B) :
  qsum (imap (fun i a => qsum (imap (fun j b => f i a j b) lb)) la)
  == qsum (imap (fun j b => qsum (imap (fun i a => f i a j b) la)) lb).
Proof.
  revert f. induction la as [|a la IH]; intros f; simpl.
  - symmetry. apply qsum_imap_zero. reflexivity.
  - rewrite (qsum_imap_plus (fun j b => f 0%nat a j b)
               (fun j b => qsum (imap (fun i a' => f (S i) a' j b) la)) lb).
    apply Qplus_comp; [reflexivity|].
    apply (IH (fun i a' j b => f (S i) a' j b)).
Qed.

End Sums.

(** ** Normalization for plotting *)

Module PlottingFacts.
Import Plotting.

Lemma stab_pos : 0 < stab.
Proof. reflexivity. Qed.

Lemma max_abs_bound (s : Sample) (m : Q) :
  max_abs s = Some m -> 0 <= m /\ Forall (fun v => Qabs v <= m) s.
Proof.
  revert m. induction s as [|v s IH]; intros m Hm; simpl in Hm; [done|].
  destruct (max_abs s) as [m'|] eqn:Hs.
  - destruct (IH m' eq_refl) as [Hpos Hall].
    injection Hm as <-. split.
    + eapply Qle_trans; [apply Hpos | apply Q.le_max_r].
    + constructor; [apply Q.le_max_l|].
      eapply Forall_impl; [apply Hall|].
      intros u Hu. simpl in Hu. eapply Qle_trans; [apply Hu | apply Q.le_max_r].
  - injection Hm as <-. destruct s; [|simpl in Hs; destruct (max_abs s); done].
    split; [apply Qabs_nonneg|]. constructor; [apply Qle_refl | constructor].
Qed.

Lemma max_abs_is_Some (s : Sample) : s <> [] -> is_Some (max_abs s).
Proof.
  destruct s as [|v s]; [done|]. intros _. simpl.
  destruct (max_abs s); eauto.
Qed.

Lemma denom_pos (s : Sample) (d : Q) : denom s = Some d -> 0 < d.
Proof.
  unfold denom. destruct (max_abs s) as [m|] eqn:Hm; [|done].
  intros [= <-]. destruct (max_abs_bound s m Hm) as [Hpos _].
  pose proof stab_pos. lra.
Qed.

Lemma quotient_bounds (v m d : Q) :
  Qabs v <= m -> m < d -> - (1) <= v / d /\ v / d <= 1.
Proof.
  intros Hv Hd.
  assert (0 < d) by (pose proof (Qabs_nonneg v); lra).
  apply Qabs_Qle_condition in Hv as [Hlo Hhi].
  split.
  - apply Qle_shift_div_l; [done | lra].
  - apply Qle_shift_div_r; [done | lra].
Qed.

Lemma divide_sample_bounds (s s' : Sample) :
  divide_sample s = Some s' ->
  Forall (fun v => - (1) <= v /\ v <= 1) s'.
Proof.
  unfold divide_sample, denom.
  destruct (max_abs s) as [m|] eqn:Hm; [|done]. intros [= <-].
  destruct (max_abs_bound s m Hm) as [_ Hall].
  apply Forall_fmap. eapply Forall_impl; [apply Hall|].
  intros v Hv. simpl. apply (quotient_bounds v m); [done|].
  pose proof stab_pos. lra.
Qed.

Lemma shift_sample_bounds (s : Sample) :
  Forall (fun v => - (1) <= v /\ v <= 1) s ->
  Forall (fun v => 0 <= v /\ v <= 1) (shift_sample s).
Proof.
  intros Hs. apply Forall_fmap. eapply Forall_impl; [apply Hs|].
  intros v [Hlo Hhi]. simpl. split.
  - apply Qle_shift_div_l; [reflexivity | lra].
  - apply Qle_shift_div_r; [reflexivity | lra].
Qed.

Lemma divide_is_Some (a : Tensor) :
  a <> [] -> Forall (fun s => s <> []) a -> is_Some (divide a).
Proof.
  intros Ha Hs. unfold divide. destruct a as [|s0 a0]; [done|].
  apply mapM_is_Some. eapply Forall_impl; [apply Hs|].
  intros s Hne. simpl. unfold divide_sample, denom.
  destruct (max_abs_is_Some s Hne) as [m ->]. by eexists.
Qed.

Lemma normalize_spec (a a' : Tensor) :
  normalize a = Some a' ->
  shape a' = shape a /\ Forall (Forall (fun v => 0 <= v /\ v <= 1)) a'.
Proof.
  unfold normalize.
  destruct (divide a) as [b|] eqn:Hb; [|done]. intros [= <-].
  unfold divide in Hb. destruct a as [|s0 a0]; [done|].
  apply mapM_Some in Hb. split.
  - unfold shape. rewrite <- list_fmap_compose.
    induction Hb as [|s s' a a' Hs _ IH]; [done|]. cbn. f_equal; [|apply IH].
    unfold divide_sample in Hs. destruct (denom s); [|done].
    injection Hs as <-. unfold shift_sample. by rewrite !length_map.
  - apply Forall_fmap.
    induction Hb as [|s s' a a' Hs _ IH]; constructor; [|apply IH].
    simpl. apply shift_sample_bounds. by apply (divide_sample_bounds s).
Qed.

(** C9: every denominator of line 31 is strictly positive, the division
    is defined on every batch that has samples with elements, and every
    value of the tensor handed on after line 32 lies in [0, 1]; an
    attribution of zeros becomes a batch of one-halves. *)
Theorem normalize_unit_interval (a : Tensor) :
  (forall s d, s ∈ a -> denom s = Some d -> 0 < d) /\
  (a <> [] -> Forall (fun s => s <> []) a -> is_Some (normalize a)) /\
  (forall a', normalize a = Some a' ->
     shape a' = shape a /\
     Forall (Forall (fun v => 0 <= v /\ v <= 1)) a').
Proof.
  split; [|split].
  - intros s d _. apply denom_pos.
  - intros Ha Hs. unfold normalize.
    destruct (divide_is_Some a Ha Hs) as [a' ->]. by eexists.
  - apply normalize_spec.
Qed.

(** The theorem at an attribution of zeros next to an ordinary sample. *)
Lemma normalize_unit_interval_witness :
  exists a', normalize [[0; 0]; [1; - (2)]] = Some a' /\
             shape a' = [2; 2]%nat /\
             Forall (Forall (fun v => 0 <= v /\ v <= 1)) a'.
Proof.
  eexists. split; [vm_compute; reflexivity|].
  apply (normalize_unit_interval [[0; 0]; [1; - (2)]]).
  vm_compute; reflexivity.
Defined.

End PlottingFacts.

(** ** The selected output neuron *)

Module SelectFacts.
Import Script.


Lemma argmax_from_spec (pre row : list Q) (b : nat) (vb : Q) :
  first_max pre b vb ->
  first_max (pre ++ row) (fst (argmax_from (length pre) (b, vb) row))
            (snd (argmax_from (length pre) (b, vb) row)).
Proof.
  revert pre b vb. induction row as [|v row IH]; intros pre b vb Hpre.
  - simpl. by rewrite app_nil_r.
  - simpl. replace (pre ++ v :: row) with ((pre ++ [v]) ++ row)
      by (by rewrite <- app_assoc).
    replace (S (length pre)) with (length (pre ++ [v]))
      by (rewrite length_app; simpl; lia).
    destruct Hpre as (Hb & Hmax & Hfirst).
    destruct (Qlt_le_dec vb v) as [Hlt|Hle]; apply IH; repeat split.
    + rewrite lookup_app_r by lia. by rewrite Nat.sub_diag.
    + intros i u Hi. apply lookup_app_Some in Hi as [Hi|[_ Hi]].
      * apply Qlt_le_weak. eapply Qle_lt_trans; [by eapply Hmax | done].
      * apply list_lookup_singleton_Some in Hi as [_ <-]. apply Qle_refl.
    + intros i u Hlen Hi. rewrite lookup_app_l in Hi by done.
      eapply Qle_lt_trans; [by eapply Hmax | done].
    + rewrite lookup_app_l; [done|]. by eapply lookup_lt_Some.
    + intros i u Hi. apply lookup_app_Some in Hi as [Hi|[_ Hi]].
      * by eapply Hmax.
      * by apply list_lookup_singleton_Some in Hi as [_ <-].
    + intros i u Hlt Hi. apply (Hfirst i u Hlt).
      rewrite lookup_app_l in Hi; [done|].
      apply lookup_lt_Some in Hb. lia.
Qed.

Lemma row_max_spec (row : list Q) (j : nat) (m : Q) :
  row_max row = Some (j, m) -> first_max row j m.
Proof.
  destruct row as [|v row]; [done|]. intros [= H].
  pose proof (argmax_from_spec [v] row 0 v) as Hs.
  simpl in Hs. rewrite H in Hs. apply Hs.
  split; [done|]. split.
  - intros [|i] u; [|done]. intros [= <-]. apply Qle_refl.
  - intros i u Hi. lia.
Qed.

Lemma row_max_is_Some (row : list Q) : row <> [] -> is_Some (row_max row).
Proof. destruct row; [done|]. by eexists. Qed.

Lemma one_hot_lookup (row : list Q) (j i : nat) :
  (i < length row)%nat ->
  one_hot row j !! i = Some (if Nat.eqb i j then 1 else 0).
Proof.
  intros Hi. unfold one_hot. rewrite list_lookup_imap.
  destruct (lookup_lt_is_Some_2 row i Hi) as [v ->]. done.
Qed.

Lemma max1_indices_spec (y_hat : Scores) (idx : list nat) :
  max1_indices y_hat = Some idx ->
  Forall2 (fun row j => exists m, first_max row j m) y_hat idx.
Proof.
  intros H. apply mapM_Some in H.
  eapply Forall2_impl; [apply H|].
  intros row j Hj. simpl in Hj.
  destruct (row_max row) as [[j' m]|] eqn:Hrow; [|done].
  injection Hj as <-. exists m. by apply row_max_spec.
Qed.

Lemma max1_indices_is_Some (y_hat : Scores) :
  Forall (fun row => row <> []) y_hat -> is_Some (max1_indices y_hat).
Proof.
  intros H. apply mapM_is_Some. eapply Forall_impl; [apply H|].
  intros row Hne. simpl. destruct (row_max_is_Some row Hne) as [[j m] ->].
  by eexists.
Qed.

End SelectFacts.

(** ** [run_and_plot_rule] *)

Module RunFacts.
Import Script SelectFacts Examples.

Lemma gather_is_Some (y_hat : Scores) (idx : list nat) :
  Forall2 (fun row j => exists m, first_max row j m) y_hat idx ->
  is_Some (gather (length y_hat) y_hat idx).
Proof.
  intros H. unfold gather.
  rewrite (Forall2_length _ _ _ H), Nat.eqb_refl.
  apply mapM_is_Some, Forall_forall. intros k Hk.
  apply elem_of_seq in Hk as [_ Hk]. simpl in Hk.
  destruct (lookup_lt_is_Some_2 idx k Hk) as [j Hj].
  destruct (Forall2_lookup_r _ _ _ _ _ H Hj) as (row & Hrow & m & Hm & _).
  simpl. rewrite Hj. simpl. rewrite Hrow. simpl. by eexists.
Qed.

Lemma select_argmax_is_Some (n : nat) (y_hat : Scores) :
  length y_hat = n -> Forall (fun row => row <> []) y_hat ->
  is_Some (select_argmax n y_hat).
Proof.
  intros <- Hrows. unfold select_argmax.
  destruct (max1_indices_is_Some y_hat Hrows) as [idx Hidx].
  rewrite Hidx. simpl.
  destruct (gather_is_Some y_hat idx (max1_indices_spec _ _ Hidx)) as [sel ->].
  by eexists.
Qed.

Lemma select_argmax_indices (n : nat) (y_hat : Scores) (idx : list nat) (sel : list Q) :
  select_argmax n y_hat = Some (idx, sel) -> max1_indices y_hat = Some idx.
Proof.
  unfold select_argmax. destruct (max1_indices y_hat) as [idx'|]; [|done].
  simpl. destruct (gather n y_hat idx'); [|done]. by intros [= <- _].
Qed.

Lemma seed_lookup (y_hat : Scores) (idx : list nat) (k : nat) (row : list Q) (j : nat) :
  y_hat !! k = Some row -> idx !! k = Some j ->
  seed y_hat idx !! k = Some (one_hot row j).
Proof.
  intros Hrow Hj. unfold seed. rewrite lookup_zip_with, Hrow. simpl. by rewrite Hj.
Qed.

Section WithModel.
Context `{M : ExplainModel}.

(** C3: line 78 succeeds on every output with one non-empty row per
    sample, and whenever a call of [run_and_plot_rule] returns, the
    relevance it sent backward has, for every sample, the length of that
    sample's forward output, the value one at the first index where that
    output is maximal and the value zero at every other index; that
    index is the predicted class whenever the plain forward pass gives
    the same output.  The function has no parameter that overrides the
    selection. *)
Theorem target_is_argmax (rule : string) (title : option string)
    (post : option Postprocess) (pattern : option Pattern)
    (cmap : string) (st st' : Input) (run : Run) :
  run_and_plot_rule rule title post pattern cmap st = (Ok run, st') ->
  (forall y, length y = length (x_data st) -> Forall (fun row => row <> []) y ->
             is_Some (select_argmax (length (x_data st)) y)) /\
  exists y_hat graph idx g relevance,
    forward_explain rule pattern (x_data st) = Ok (y_hat, graph) /\
    max1_indices y_hat = Some idx /\
    Forall2 (fun row j => exists m, first_max row j m) y_hat idx /\
    relevance = seed y_hat idx /\
    backward graph relevance = Ok g /\
    length relevance = length y_hat /\
    (forall k row j, y_hat !! k = Some row -> idx !! k = Some j ->
       exists r, relevance !! k = Some r /\
                 length r = length row /\
                 r !! j = Some 1 /\
                 forall i, i <> j -> (i < length row)%nat -> r !! i = Some 0) /\
    attribution run = post_value post g /\
    (forward (x_data st) = Ok y_hat -> predict (x_data st) = Ok idx).
Proof.
  intros Hrun. split; [intros y; apply select_argmax_is_Some|].
  unfold run_and_plot_rule in Hrun.
  destruct (forward_explain rule pattern (x_data st)) as [[y_hat graph]|] eqn:Hf;
    [|done].
  destruct (select_argmax (length (x_data st)) y_hat) as [[idx sel]|] eqn:Hsel;
    [|done].
  destruct (backward graph (seed y_hat idx)) as [g|] eqn:Hb; [|done].
  simpl in Hrun.
  destruct (Plotting.divide _) as [a'|] eqn:Ha; [|done].
  injection Hrun as <- _.
  apply select_argmax_indices in Hsel.
  pose proof (max1_indices_spec _ _ Hsel) as Hmax.
  exists y_hat, graph, idx, g, (seed y_hat idx).
  split; [done|]. split; [done|]. split; [done|]. split; [done|]. split; [done|].
  split; [|split; [|split; [done|]]].
  - unfold seed. rewrite length_zip_with, <- (Forall2_length _ _ _ Hmax). lia.
  - intros k row j Hrow Hj. exists (one_hot row j).
    destruct (Forall2_lookup_lr _ _ _ _ _ _ Hmax Hrow Hj) as (m & Hm & _).
    apply lookup_lt_Some in Hm.
    split; [by apply seed_lookup|].
    split; [unfold one_hot; by rewrite length_imap|].
    split.
    + rewrite one_hot_lookup by done. by rewrite Nat.eqb_refl.
    + intros i Hij Hi. rewrite one_hot_lookup by done.
      by rewrite (proj2 (Nat.eqb_neq i j) Hij).
  - intros Hy. unfold predict. rewrite Hy. simpl. by rewrite Hsel.
Qed.

Lemma call_x_data (c : Call) (st : Input) : x_data (snd (call c st)) = x_data st.
Proof.
  unfold call, run_and_plot_rule.
  repeat (match goal with
          | |- context [match ?e with _ => _ end] => destruct e
          end; try done).
Qed.

Lemma calls_x_data (cs : list Call) (st : Input) :
  x_data (snd (calls cs st)) = x_data st.
Proof.
  revert st. induction cs as [|c cs IH]; intros st; [done|].
  simpl. pose proof (call_x_data c st) as Hc.
  destruct (call c st) as [r st1]. specialize (IH st1).
  destruct (calls cs st1) as [rs st2]. simpl in *. congruence.
Qed.

Lemma call_reset (c : Call) (st : Input) :
  call c st = call c {| x_data := x_data st; x_grad := None |}.
Proof. reflexivity. Qed.

(** C10: a call starts by emptying [x.grad], so what it computes (the
    attribution, the figure, and the gradient it leaves) is the same
    after any sequence of earlier calls on the same input tensor as on
    a tensor that was never explained. *)
Theorem run_independent_of_history (c : Call) (earlier : list Call) (st : Input) :
  call c (snd (calls earlier st))
  = call c {| x_data := x_data st; x_grad := None |}.
Proof.
  rewrite call_reset. by rewrite calls_x_data.
Qed.

(** Without line 74 the gradient of the call is added to what the
    earlier calls left behind. *)
Lemma run_without_reset_accumulates (rule : string) (pattern : option Pattern)
    (x old g : Tensor) (y_hat : Scores) (graph : Graph) (idx : list nat) (sel : list Q) :
  forward_explain rule pattern x = Ok (y_hat, graph) ->
  select_argmax (length x) y_hat = Some (idx, sel) ->
  backward graph (seed y_hat idx) = Ok g ->
  run_without_reset rule pattern {| x_data := x; x_grad := Some old |}
  = Ok (tensor_add old g).
Proof.
  intros Hf Hs Hb. unfold run_without_reset. simpl.
  rewrite Hf. simpl. rewrite Hs. simpl. by rewrite Hb.
Qed.

End WithModel.

(** The theorem at a gradient call on [net1], whose outputs are [(3, -1)]
    and [(4, 2)]: both samples select unit 0, and the relevance sent
    backward is [(1, 0)] for each. *)
Lemma target_is_argmax_witness :
  exists run st',
    run_and_plot_rule (M := EngineModel.model net1)
      "gradient" None None None "seismic" x1 = (Ok run, st') /\
    exists y_hat graph idx g relevance,
      forward_explain (ExplainModel := EngineModel.model net1)
        "gradient" None (x_data x1) = Ok (y_hat, graph) /\
      max1_indices y_hat = Some idx /\
      Forall2 (fun row j => exists m, first_max row j m) y_hat idx /\
      relevance = seed y_hat idx /\
      backward (ExplainModel := EngineModel.model net1) graph relevance = Ok g /\
      length relevance = length y_hat /\
      (forall k row j, y_hat !! k = Some row -> idx !! k = Some j ->
         exists r, relevance !! k = Some r /\
                   length r = length row /\
                   r !! j = Some 1 /\
                   forall i, i <> j -> (i < length row)%nat -> r !! i = Some 0) /\
      attribution run = g /\
      (forward (ExplainModel := EngineModel.model net1) (x_data x1) = Ok y_hat ->
       predict (M := EngineModel.model net1) (x_data x1) = Ok idx).
Proof.
  eexists _, _. split; [vm_compute; reflexivity|].
  eapply proj2.
  eapply (target_is_argmax (M := EngineModel.model net1)
            "gradient" None None None "seismic" x1).
  vm_compute; reflexivity.
Defined.

End RunFacts.

(** ** [main]: patterns on disk, seeds *)

Module MainFacts.
Import Script.

Lemma append_inj_r (b s t : string) : b +:+ s = b +:+ t -> s = t.
Proof. induction b as [|c b IH]; simpl; [done|]. intros [= H]. by apply IH. Qed.

Section WithCollaborators.
Context `{C : Collaborators}.

Lemma paths_differ (base_path : string) :
  all_patterns_path base_path <> pos_patterns_path base_path.
Proof. intros H. by apply append_inj_r in H. Qed.

Lemma fit_or_load_exists fit positive path model loader (w : World) p :
  disk w !! path = Some p ->
  fit_or_load fit positive path model loader w
  = (Ok p, {| rngs := rngs w; disk := disk w;
              trace := trace w ++ [EvLoad path] |}).
Proof.
  intros Hp. unfold fit_or_load, exists_path.
  rewrite bool_decide_eq_true_2 by (by eexists). simpl.
  unfold load_patterns. by rewrite Hp.
Qed.

Lemma fit_or_load_missing fit positive path model loader (w : World) :
  disk w !! path = None ->
  fit_or_load fit positive path model loader w
  = match fit model loader (rngs w) with
    | (Ok p, g) =>
        (Ok p, {| rngs := g; disk := <[path := p]> (disk w);
                  trace := (trace w ++ [EvFit positive]) ++ [EvStore path] |})
    | (Raise e, g) =>
        (Raise e, {| rngs := g; disk := disk w;
                     trace := trace w ++ [EvFit positive] |})
    end.
Proof.
  intros Hp. unfold fit_or_load, exists_path.
  rewrite bool_decide_eq_false_2 by (rewrite Hp; by intros [? ?]). simpl.
  by destruct (fit model loader (rngs w)) as [[p|e] g].
Qed.

Lemma setup_frame (args : Args) (w : World) :
  disk (snd (setup args w)) = disk w /\ trace (snd (setup args w)) = trace w.
Proof.
  unfold setup.
  destruct (get_mnist_model (rngs w)) as [m0 g1].
  destruct (prepare_mnist_model m0 (epochs args) (train_new args) g1) as [m g2].
  destruct (get_mnist_data (batch_size args)) as [train test].
  destruct (next_batch test g2) as [[x|e] g3]; done.
Qed.

(** C2: each of the two blocks of [main] looks at nothing but whether
    its file exists.  If it does, the patterns are the file's content
    and the fitter is not called; if it does not, the fitter is called
    on the current model and its result is stored.  So with both files
    present [main] returns their contents for every command line and
    every state of the generators, hence for every model it has built
    or trained: stale patterns are reused. *)
Theorem patterns_by_file_existence (args : Args) (base_path : string) (w : World)
    fit positive path model loader :
  (forall p, disk w !! path = Some p ->
     fit_or_load fit positive path model loader w
     = (Ok p, {| rngs := rngs w; disk := disk w;
                 trace := trace w ++ [EvLoad path] |})) /\
  (disk w !! path = None ->
     fit_or_load fit positive path model loader w
     = match fit model loader (rngs w) with
       | (Ok p, g) =>
           (Ok p, {| rngs := g; disk := <[path := p]> (disk w);
                     trace := (trace w ++ [EvFit positive]) ++ [EvStore path] |})
       | (Raise e, g) =>
           (Raise e, {| rngs := g; disk := disk w;
                        trace := trace w ++ [EvFit positive] |})
       end) /\
  (forall p_all p_pos,
     disk w !! all_patterns_path base_path = Some p_all ->
     disk w !! pos_patterns_path base_path = Some p_pos ->
     is_Ok (fst (setup args w)) ->
     fst (main_patterns args base_path w) = Ok (p_all, p_pos) /\
     disk (snd (main_patterns args base_path w)) = disk w /\
     trace (snd (main_patterns args base_path w))
     = trace w ++ [EvLoad (all_patterns_path base_path);
                   EvLoad (pos_patterns_path base_path)]).
Proof.
  split; [|split].
  - intros p. apply fit_or_load_exists.
  - apply fit_or_load_missing.
  - intros p_all p_pos Hall Hpos Hsetup. unfold main_patterns.
    pose proof (setup_frame args w) as [Hd Ht].
    destruct (setup args w) as [[[[m train] x]|e] w2]; [|by destruct Hsetup].
    simpl in Hd, Ht.
    rewrite (fit_or_load_exists _ _ _ _ _ _ p_all) by (by rewrite Hd). simpl.
    rewrite (fit_or_load_exists _ _ _ _ _ _ p_pos) by (by rewrite Hd). simpl.
    by rewrite Hd, Ht, <- app_assoc.
Qed.

(** A seed in numpy's range fixes all three generators. *)
Lemma seed_all_given (s : Z) (r : Rngs Gen) :
  seed_all (Some s) r
  = if ((0 <=? s) && (s <? 2 ^ 32))%Z then
      (Ok s, {| py_random := random_seed s;
                np_random := np_random_seed s;
                torch_random := torch_manual_seed s |})
    else (Raise RuntimeError, r).
Proof. unfold seed_all. destruct (_ && _); [done|]. by destruct r. Qed.

Lemma entry_seeded (args : Args) (base_path : string) (s : Z) (w1 w2 : World) :
  arg_seed args = Some s -> disk w1 = disk w2 -> trace w1 = trace w2 ->
  fst (entry args base_path w1) = fst (entry args base_path w2) /\
  disk (snd (entry args base_path w1)) = disk (snd (entry args base_path w2)) /\
  trace (snd (entry args base_path w1)) = trace (snd (entry args base_path w2)).
Proof.
  intros Hs Hd Ht. unfold entry. rewrite Hs, !seed_all_given.
  destruct (_ && _); simpl; by rewrite Hd, Ht.
Qed.

End WithCollaborators.

(** The theorem in a world where both files hold patterns of an earlier
    model, for a run that trains a new model; and, block by block, in that
    world and in one without files. *)
Lemma patterns_by_file_existence_witness :
  (fst (main_patterns (C := Examples.toy) (Examples.toy_args true (Some 7%Z))
          "/repo" (Examples.toy_world 3))
   = Ok (Examples.stale_all, Examples.stale_pos) /\
   disk (snd (main_patterns (C := Examples.toy) (Examples.toy_args true (Some 7%Z))
                "/repo" (Examples.toy_world 3)))
   = disk (Examples.toy_world 3) /\
   trace (snd (main_patterns (C := Examples.toy) (Examples.toy_args true (Some 7%Z))
                 "/repo" (Examples.toy_world 3)))
   = [EvLoad (all_patterns_path "/repo"); EvLoad (pos_patterns_path "/repo")]) /\
  fit_or_load (C := Examples.toy) (fit_patternnet (Collaborators := Examples.toy))
    false (all_patterns_path "/repo") Examples.net2 (fun g => (Examples.batches1, g))
    (Examples.toy_world 3)
  = (Ok Examples.stale_all,
     @Build_World Examples.toy (Examples.toy_rngs 3) (disk (Examples.toy_world 3))
       [EvLoad (all_patterns_path "/repo")]) /\
  trace (snd (fit_or_load (C := Examples.toy)
                (fit_patternnet (Collaborators := Examples.toy))
                false (all_patterns_path "/repo") Examples.net2
                (fun g => (Examples.batches1, g)) (Examples.fresh_world 3)))
  = [EvFit false; EvStore (all_patterns_path "/repo")].
Proof.
  split; [|split].
  - apply (proj2 (proj2 (patterns_by_file_existence (C := Examples.toy)
                           (Examples.toy_args true (Some 7%Z)) "/repo"
                           (Examples.toy_world 3)
                           (fit_patternnet (Collaborators := Examples.toy)) false
                           (all_patterns_path "/repo") Examples.net2
                           (fun g => ([], g))))).
    + vm_compute; reflexivity.
    + vm_compute; reflexivity.
    + vm_compute; exact I.
  - apply (proj1 (patterns_by_file_existence (C := Examples.toy)
                    (Examples.toy_args true (Some 7%Z)) "/repo"
                    (Examples.toy_world 3)
                    (fit_patternnet (Collaborators := Examples.toy)) false
                    (all_patterns_path "/repo") Examples.net2
                    (fun g => (Examples.batches1, g)))).
    vm_compute; reflexivity.
  - rewrite (proj1 (proj2 (patterns_by_file_existence (C := Examples.toy)
                             (Examples.toy_args true (Some 7%Z)) "/repo"
                             (Examples.fresh_world 3)
                             (fit_patternnet (Collaborators := Examples.toy)) false
                             (all_patterns_path "/repo") Examples.net2
                             (fun g => (Examples.batches1, g)))))
      by reflexivity.
    reflexivity.
Defined.

(** Without a seed on the command line the seed is drawn from the ambient
    generator, and the two runs fit on different batch orders. *)
Lemma unseeded_runs_differ :
  fst (entry (C := Examples.toy) (Examples.toy_args false None) "/repo"
         (Examples.fresh_world 3))
  <> fst (entry (C := Examples.toy) (Examples.toy_args false None) "/repo"
            (Examples.fresh_world 4)).
Proof. vm_compute. discriminate. Qed.

End MainFacts.

(** ** The attribution core *)

Module EngineFacts.
Import Engine.

Lemma mapM_Ok {A B} (f : A -> result B) (l : list A) (k : list B) :
  mapM f l = Ok k -> Forall2 (fun a b => f a = Ok b) l k.
Proof.
  revert k. induction l as [|a l IH]; intros k; simpl.
  - intros [= <-]. constructor.
  - unfold mbind, result_bind, rbind.
    destruct (f a) as [b|] eqn:Hb; [|done].
    destruct (mapM f l) as [k'|]; [|done].
    intros [= <-]. constructor; [done|]. by apply IH.
Qed.

Lemma resolve_unknown (rule_id : string) :
  rule_id ∉ registered -> resolve rule_id = Raise UnknownRuleError.
Proof.
  intros Hid. unfold resolve.
  repeat match goal with
  | |- context [String.eqb rule_id ?s] =>
      destruct (String.eqb_spec rule_id s) as [->|_];
      [exfalso; apply Hid; unfold registered; set_solver|]
  end.
  done.
Qed.

Lemma resolve_registered (rule_id : string) :
  rule_id ∈ registered -> exists r, resolve rule_id = Ok r.
Proof.
  unfold registered. intros H.
  repeat (apply elem_of_cons in H as [->|H]; [by eexists|]).
  by apply elem_of_nil in H.
Qed.

(** C5: an identifier the registry does not know makes the attribution
    call raise [UnknownRuleError] with the network exactly as it was: no
    forward pass and no backward sweep was started and no layer holds a
    cache that it did not hold before; in explain mode the model's
    [forward] raises the same error without building a graph. *)
Theorem unknown_rule_fails_fast (rule_id : string) (pats : option PatternSet)
    (selector : option (list nat)) (x : Tensor) (st : State) :
  rule_id ∉ registered ->
  explain rule_id pats selector x st = (Raise UnknownRuleError, st) /\
  forward_passes (snd (explain rule_id pats selector x st)) = forward_passes st /\
  backward_sweeps (snd (explain rule_id pats selector x st)) = backward_sweeps st /\
  (existsb has_cache (layers st) = false ->
   existsb has_cache (layers (snd (explain rule_id pats selector x st))) = false) /\
  EngineModel.forward_explain (layers st) rule_id pats x = Raise UnknownRuleError.
Proof.
  intros Hid. pose proof (resolve_unknown rule_id Hid) as Hr.
  unfold explain, EngineModel.forward_explain. rewrite Hr. done.
Qed.

(** The theorem at a misspelt rule on a two-layer network. *)
Lemma unknown_rule_fails_fast_witness :
  explain "epsilon0" None None [[1; 1]]
    {| layers := Examples.net2; forward_passes := 0; backward_sweeps := 0 |}
  = (Raise UnknownRuleError,
     {| layers := Examples.net2; forward_passes := 0; backward_sweeps := 0 |}).
Proof.
  apply (unknown_rule_fails_fast "epsilon0" None None [[1; 1]]
           {| layers := Examples.net2; forward_passes := 0; backward_sweeps := 0 |}).
  unfold registered. vm_compute. intros H.
  repeat (apply elem_of_cons in H as [H|H]; [discriminate H|]).
  by apply elem_of_nil in H.
Defined.

(** *** Shapes *)

Lemma redistribute_length r l p x R : length (redistribute r l p x R) = length x.
Proof. unfold redistribute. apply length_imap. Qed.

Lemma layer_backward_length r l p x R R' :
  layer_backward r l p x R = Ok R' -> length R' = length x.
Proof.
  unfold layer_backward. destruct (negb _); [done|].
  destruct (requires_pattern r), p; try done;
    intros [= <-]; apply redistribute_length.
Qed.

Lemma sweep_length r pats k i l net R A :
  sweep r pats k i (l :: net) R = Ok A ->
  exists x, cached l ≫= (.!! k) = Some x /\ length A = length x.
Proof.
  simpl. unfold mbind at 1, result_bind, rbind.
  destruct (sweep r pats k (S i) net R) as [R'|]; [|done].
  unfold mbind at 1, result_bind, rbind, cached_sample.
  destruct (cached l ≫= (.!! k)) as [x|]; [|done].
  intros H. exists x. split; [done|]. by eapply layer_backward_length.
Qed.

Lemma fill_length net x : length (fst (fill net x)) = length x.
Proof.
  revert x. induction net as [|l net IH]; intros x; simpl; [done|].
  specialize (IH (map (layer_out l) x)).
  destruct (fill net (map (layer_out l) x)) as [y filled]. simpl in *.
  by rewrite IH, length_map.
Qed.


Lemma one_hot_length row j : length (Script.one_hot row j) = length row.
Proof. apply length_imap. Qed.

Lemma seed_shape (y : Tensor) (idx : list nat) :
  length idx = length y -> shape (Script.seed y idx) = shape y.
Proof.
  revert idx. induction y as [|row y IH]; intros [|j idx] Hlen; try done.
  simpl. rewrite one_hot_length. f_equal. apply IH. simpl in Hlen. lia.
Qed.

(** The sweeps of a batch return one vector per sample, each as long as
    the sample the first layer has cached, or as the seeded relevance when
    there is no layer. *)
Lemma sweeps_shape r pats (x : Tensor) (filled : list Layer) (R A : Tensor) :
  (filled = [] -> shape R = shape x) ->
  (forall l net, filled = l :: net -> cached l = Some x) ->
  length R = length x ->
  mapM (fun '(k, Rk) => sweep r pats k 0 filled Rk) (imap pair R) = Ok A ->
  shape A = shape x.
Proof.
  intros Hnil Hcons Hlen HA. apply mapM_Ok in HA.
  pose proof (Forall2_length _ _ _ HA) as HlenA. rewrite length_imap in HlenA.
  unfold shape. apply list_eq_same_length with (length x).
  - by rewrite length_map.
  - rewrite length_map. congruence.
  - intros k a b Hk Ha Hb.
    rewrite list_lookup_fmap in Ha, Hb.
    destruct (A !! k) as [Ak|] eqn:HAk; [|done].
    destruct (x !! k) as [xk|] eqn:Hxk; [|done].
    simpl in Ha, Hb. injection Ha as <-. injection Hb as <-.
    destruct (Forall2_lookup_r _ _ _ _ _ HA HAk) as ([k' Rk] & HRk & Hsw).
    rewrite list_lookup_imap in HRk.
    destruct (R !! k) as [Rk'|] eqn:HR; [|done].
    simpl in HRk. injection HRk as <- <-.
    destruct filled as [|l net].
    + simpl in Hsw. injection Hsw as <-.
      specialize (Hnil eq_refl). unfold shape in Hnil.
      assert (map length R !! k = map length x !! k) as Hk' by (by rewrite Hnil).
      rewrite !list_lookup_fmap, HR, Hxk in Hk'. by injection Hk'.
    + apply sweep_length in Hsw as (x' & Hx' & ->).
      rewrite (Hcons l net eq_refl) in Hx'. simpl in Hx'.
      rewrite Hxk in Hx'. by injection Hx' as <-.
Qed.

Lemma fill_cases net x y filled :
  fill net x = (y, filled) ->
  length y = length x /\
  (filled = [] -> y = x) /\
  (forall l rest, filled = l :: rest -> cached l = Some x).
Proof.
  intros H. split; [|split].
  - pose proof (fill_length net x) as Hl. by rewrite H in Hl.
  - destruct net as [|l net]; simpl in H.
    + by injection H as <- <-.
    + destruct (fill net (map (layer_out l) x)). injection H as <- <-. done.
  - destruct net as [|l net]; simpl in H.
    + by injection H as <- <-.
    + destruct (fill net (map (layer_out l) x)). injection H as <- <-.
      by intros l' rest [= <- _].
Qed.

Lemma select_shape selector y R : select selector y = Ok R -> shape R = shape y.
Proof.
  unfold select. unfold mbind, result_bind, rbind.
  destruct (match selector with Some idx => Ok idx | None => _ end) as [idx|];
    [|done].
  destruct (Nat.eqb_spec (length idx) (length y)) as [Hlen|]; [|done].
  intros [= <-]. by apply seed_shape.
Qed.

Lemma shape_length (s t : Tensor) : shape s = shape t -> length s = length t.
Proof. unfold shape. intros H. by rewrite <- (length_map length s), H, length_map. Qed.

Lemma explain_shape rule_id pats selector x st A st' :
  explain rule_id pats selector x st = (Ok A, st') -> shape A = shape x.
Proof.
  unfold explain. destruct (resolve rule_id) as [r|]; [|done].
  destruct (requires_pattern r && _) eqn:Hreq; [done|].
  unfold forward_explain. destruct (existsb has_cache (layers st)); [done|].
  destruct (fill (layers st) x) as [y filled] eqn:Hfill.
  intros [= HA _]. unfold attribute in HA. rewrite Hreq in HA.
  unfold mbind at 1, result_bind, rbind in HA.
  destruct (select selector y) as [R|] eqn:HR; [|done].
  apply select_shape in HR.
  destruct (fill_cases _ _ _ _ Hfill) as (Hlen & Hnil & Hcons).
  eapply sweeps_shape; [| |  |apply HA].
  - intros Hf. rewrite HR. by rewrite (Hnil Hf).
  - done.
  - apply shape_length in HR. congruence.
Qed.

Lemma tensor_mul_shape (g x : Tensor) :
  shape g = shape x -> shape (Script.tensor_mul g x) = shape x.
Proof.
  revert x. induction g as [|a g IH]; intros [|b x]; try done.
  simpl. intros [= Hab Hgx]. rewrite length_zip_with. f_equal; [lia|by apply IH].
Qed.

Lemma run_shape net rule title post pattern cmap st run st' :
  Script.run_and_plot_rule (M := EngineModel.model net)
    rule title post pattern cmap st = (Ok run, st') ->
  (forall g, shape g = shape (Script.x_data st) ->
             shape (Script.post_value post g) = shape (Script.x_data st)) ->
  shape (Script.attribution run) = shape (Script.x_data st) /\
  shape (Script.heat run) = shape (Script.x_data st).
Proof.
  intros Hrun Hpost. unfold Script.run_and_plot_rule in Hrun.
  simpl in Hrun. unfold EngineModel.forward_explain in Hrun.
  unfold mbind at 1, result_bind, rbind in Hrun.
  destruct (resolve rule) as [r|]; [|done].
  destruct (requires_pattern r && _); [done|].
  unfold forward_explain in Hrun.
  destruct (existsb has_cache net); [done|].
  simpl in Hrun.
  destruct (fill net (Script.x_data st)) as [y filled] eqn:Hfill.
  destruct (Script.select_argmax _ y) as [[idx sel]|] eqn:Hsel; [|done].
  destruct (EngineModel.backward _ _) as [g|] eqn:Hg; [|done].
  simpl in Hrun.
  destruct (Plotting.divide _) as [a'|] eqn:Ha; [|done].
  injection Hrun as <- _. simpl.
  destruct (fill_cases _ _ _ _ Hfill) as (Hlen & Hnil & Hcons).
  assert (length idx = length y) as Hidx.
  { apply RunFacts.select_argmax_indices in Hsel.
    apply SelectFacts.max1_indices_spec, Forall2_length in Hsel. done. }
  assert (shape g = shape (Script.x_data st)) as Hshape.
  { unfold EngineModel.backward in Hg. simpl in Hg.
    eapply sweeps_shape; [| | |apply Hg].
    - intros Hf. rewrite seed_shape by done. by rewrite (Hnil Hf).
    - done.
    - pose proof (shape_length _ _ (seed_shape y idx Hidx)). congruence. }
  assert (shape (Script.post_value post g) = shape (Script.x_data st)) as Hattr
    by (by apply Hpost).
  split; [done|].
  pose proof (PlottingFacts.normalize_spec (Script.post_value post g)) as Hn.
  unfold Plotting.normalize in Hn. rewrite Ha in Hn.
  destruct (Hn _ eq_refl) as [Hs _]. by rewrite Hs.
Qed.

(** C7: for every rule identifier the registry knows, with or without
    patterns, whenever an attribution call returns an attribution it has
    exactly the shape of the input batch: as many samples, and for each
    sample as many relevance values as the sample has elements.  This
    holds for the core's call and for [run_and_plot_rule] on the core,
    also after a postprocess that keeps the shape, as the
    input-times-gradient of [main] does. *)
Theorem attribution_has_input_shape :
  (forall rule_id pats selector x st A st',
     explain rule_id pats selector x st = (Ok A, st') -> shape A = shape x) /\
  (forall net rule title post pattern cmap st run st',
     Script.run_and_plot_rule (M := EngineModel.model net)
       rule title post pattern cmap st = (Ok run, st') ->
     (post = None \/
      post = Some (Script.NewTensor
                     (fun a => Script.tensor_mul a (Script.x_data st)))) ->
     shape (Script.attribution run) = shape (Script.x_data st) /\
     shape (Script.heat run) = shape (Script.x_data st)).
Proof.
  split.
  - apply explain_shape.
  - intros net rule title post pattern cmap st run st' Hrun Hpost.
    eapply run_shape; [apply Hrun|].
    intros g Hg. destruct Hpost as [->| ->]; [done|].
    simpl. by apply tensor_mul_shape.
Qed.

(** *** Relevance accounting *)

Lemma qsum_imap_id (R : list Q) : qsum (imap (fun _ r => r) R) == qsum R.
Proof.
  change (fun (_ : nat) (r : Q) => r) with (@const (Q -> Q) nat (fun r => r)).
  by rewrite imap_const, list_fmap_id.
Qed.

Lemma qsum_redistribute r l p x R :
  qsum (redistribute r l p x R)
  == qsum (imap (fun j Rj =>
                   Rj * qsum (imap (fun i xi =>
                                      share r (nonlin l) (nth j (weight l) [])
                                        (nth j p [])
                                        (dot (nth j (weight l) []) x + nth j (bias l) 0)
                                        x i xi) x)) R).
Proof.
  unfold redistribute.
  etransitivity;
    [apply (qsum_imap_swap
              (fun i xi j Rj =>
                 Rj * share r (nonlin l) (nth j (weight l) []) (nth j p [])
                        (dot (nth j (weight l) []) x + nth j (bias l) 0) x i xi))|].
  apply qsum_imap_ext. intros j Rj _.
  apply (qsum_imap_scale Rj
           (fun i xi =>
              share r (nonlin l) (nth j (weight l) []) (nth j p [])
                (dot (nth j (weight l) []) x + nth j (bias l) 0) x i xi)).
Qed.

Lemma stabilized_nonzero (eps z : Q) : 0 < eps -> ~ z + eps * sgn z == 0.
Proof.
  intros Heps. unfold sgn. destruct (Qlt_le_dec z 0); intros H; lra.
Qed.

(** Under the epsilon rule the shares of a unit sum to one minus what the
    stabilizer keeps. *)
Lemma epsilon_unit (eps : Q) n w a z x :
  0 < eps ->
  qsum (imap (fun i xi => share (Epsilon eps) n w a z x i xi) x)
  == 1 - absorbed_unit eps w x.
Proof.
  intros Heps. unfold share, absorbed_unit.
  set (zj := qsum (contrib w x)).
  pose proof (stabilized_nonzero eps zj Heps) as Hd.
  etransitivity;
    [apply (qsum_imap_ext _
              (fun i xi => / (zj + eps * sgn zj) * (xi * nth i w 0)))|].
  { intros i xi _. unfold Qdiv. ring. }
  rewrite (qsum_imap_scale (/ (zj + eps * sgn zj)) (fun i xi => xi * nth i w 0)).
  change (qsum (imap (fun i xi => xi * nth i w 0) x)) with zj.
  field. exact Hd.
Qed.

Lemma epsilon_layer (eps : Q) l p x R :
  0 < eps ->
  qsum (redistribute (Epsilon eps) l p x R) == qsum R - absorbed_layer eps l x R.
Proof.
  intros Heps. rewrite qsum_redistribute. unfold absorbed_layer.
  etransitivity;
    [apply (qsum_imap_ext _
              (fun j Rj => Rj + (- (1)) * (Rj * absorbed_unit eps (nth j (weight l) []) x)))|].
  { intros j Rj _. rewrite epsilon_unit by done. ring. }
  rewrite (qsum_imap_plus (fun _ Rj => Rj)
             (fun j Rj => (- (1)) * (Rj * absorbed_unit eps (nth j (weight l) []) x))).
  rewrite (qsum_imap_scale (- (1))
             (fun j Rj => Rj * absorbed_unit eps (nth j (weight l) []) x)).
  rewrite qsum_imap_id. ring.
Qed.

(** Under an alpha-beta rule the shares of a balanced unit sum to
    [alpha - beta]. *)
Lemma alpha_beta_unit (alpha beta : Q) n w a z x :
  balanced_unit beta w x = true ->
  qsum (imap (fun i xi => share (AlphaBeta alpha beta) n w a z x i xi) x)
  == alpha - beta.
Proof.
  intros Hb. unfold share.
  set (zp := qsum (map pos (contrib w x))).
  set (zn := qsum (map neg (contrib w x))).
  etransitivity;
    [apply (qsum_imap_ext _
              (fun i xi => (alpha * / zp) * pos (xi * nth i w 0)
                           + (- beta * / zn) * neg (xi * nth i w 0)))|].
  { intros i xi _. unfold Qdiv. ring. }
  rewrite (qsum_imap_plus (fun i xi => (alpha * / zp) * pos (xi * nth i w 0))
             (fun i xi => (- beta * / zn) * neg (xi * nth i w 0))).
  rewrite (qsum_imap_scale (alpha * / zp) (fun i xi => pos (xi * nth i w 0))).
  rewrite (qsum_imap_scale (- beta * / zn) (fun i xi => neg (xi * nth i w 0))).
  assert (qsum (imap (fun i xi => pos (xi * nth i w 0)) x) = zp) as ->.
  { unfold zp, contrib. by rewrite fmap_imap. }
  assert (qsum (imap (fun i xi => neg (xi * nth i w 0)) x) = zn) as ->.
  { unfold zn, contrib. by rewrite fmap_imap. }
  unfold balanced_unit in Hb. fold zp zn in Hb.
  apply andb_prop in Hb as [Hp Hn].
  apply negb_true_iff in Hp.
  assert (~ zp == 0) as Hzp.
  { intros H. apply Qeq_bool_iff in H. congruence. }
  assert (alpha * / zp * zp == alpha) as -> by (field; exact Hzp).
  apply orb_prop in Hn as [Hn|Hn].
  - apply Qeq_bool_iff in Hn. rewrite Hn. ring.
  - apply negb_true_iff in Hn.
    assert (~ zn == 0) as Hzn.
    { intros H. apply Qeq_bool_iff in H. congruence. }
    assert (- beta * / zn * zn == - beta) as -> by (field; exact Hzn).
    ring.
Qed.

Lemma balanced_layer_lookup beta l x R j Rj :
  balanced_layer beta l x R = true -> R !! j = Some Rj ->
  Rj == 0 \/ balanced_unit beta (nth j (weight l) []) x = true.
Proof.
  unfold balanced_layer. intros H Hj.
  assert ((Qeq_bool Rj 0 || balanced_unit beta (nth j (weight l) []) x) = true) as Hb.
  { eapply (proj1 (forallb_forall _ _) H).
    apply list_elem_of_In, list_elem_of_lookup. exists j.
    by rewrite list_lookup_imap, Hj. }
  apply orb_prop in Hb as [Hb|Hb]; [left; by apply Qeq_bool_iff|by right].
Qed.

Lemma alpha_beta_layer (alpha beta : Q) l p x R :
  beta == alpha - 1 ->
  balanced_layer beta l x R = true ->
  qsum (redistribute (AlphaBeta alpha beta) l p x R) == qsum R.
Proof.
  intros Hab Hb. rewrite qsum_redistribute.
  transitivity (qsum (imap (fun _ r => r) R)); [|apply qsum_imap_id].
  apply qsum_imap_ext. intros j Rj Hj.
  destruct (balanced_layer_lookup _ _ _ _ _ _ Hb Hj) as [H0|Hu].
  - rewrite H0. ring.
  - rewrite alpha_beta_unit by done. rewrite Hab. ring.
Qed.

Lemma sweep_cons r pats k i l net R A :
  sweep r pats k i (l :: net) R = Ok A ->
  exists R' x, sweep r pats k (S i) net R = Ok R' /\
               cached_sample l k = Ok x /\
               A = redistribute r l (default [] (pats !! i)) x R'.
Proof.
  simpl. unfold mbind at 1, result_bind, rbind.
  destruct (sweep r pats k (S i) net R) as [R'|]; [|done].
  unfold mbind at 1, result_bind, rbind.
  destruct (cached_sample l k) as [x|]; [|done].
  unfold layer_backward. destruct (negb _); [done|].
  intros H. exists R', x. split; [done|]. split; [done|].
  destruct (requires_pattern r), (pats !! i); try done; by injection H.
Qed.

Lemma epsilon_sweep (eps : Q) pats k i net R A :
  0 < eps ->
  sweep (Epsilon eps) pats k i net R = Ok A ->
  qsum A == qsum R - absorbed eps pats k i net R.
Proof.
  intros Heps. revert i A. induction net as [|l net IH]; intros i A HA.
  - simpl in *. injection HA as <-. ring.
  - apply sweep_cons in HA as (R' & x & HR' & Hx & ->).
    simpl. rewrite HR', Hx. rewrite epsilon_layer by done.
    rewrite (IH _ _ HR'). ring.
Qed.

Lemma alpha_beta_sweep (alpha beta : Q) pats k i net R A :
  beta == alpha - 1 ->
  balanced alpha beta pats k i net R = true ->
  sweep (AlphaBeta alpha beta) pats k i net R = Ok A ->
  qsum A == qsum R.
Proof.
  intros Hab. revert i A. induction net as [|l net IH]; intros i A Hb HA.
  - simpl in *. by injection HA as <-.
  - apply sweep_cons in HA as (R' & x & HR' & Hx & ->).
    simpl in Hb. rewrite HR', Hx in Hb. apply andb_prop in Hb as [Hb1 Hb2].
    rewrite alpha_beta_layer by done. by apply (IH (S i)).
Qed.

Lemma one_hot_sum (row : list Q) (j : nat) :
  (j < length row)%nat -> qsum (Script.one_hot row j) == 1.
Proof.
  unfold Script.one_hot. revert j. induction row as [|v row IH]; intros j Hj.
  - simpl in Hj. lia.
  - simpl. destruct j as [|j].
    + rewrite qsum_imap_zero; [simpl; ring|]. intros i a. reflexivity.
    + simpl in Hj.
      rewrite (qsum_imap_ext _ (fun i _ => if Nat.eqb i j then 1 else 0)).
      * rewrite IH by lia. simpl. ring.
      * intros i a _. reflexivity.
Qed.

Lemma explain_samples rule_id pats selector x st A st' :
  explain rule_id pats selector x st = (Ok A, st') ->
  exists r R,
    resolve rule_id = Ok r /\
    select selector (fst (fill (layers st) x)) = Ok R /\
    forall k a, A !! k = Some a ->
      exists Rk, R !! k = Some Rk /\
                 sweep r (default [] pats) k 0 (snd (fill (layers st) x)) Rk = Ok a.
Proof.
  unfold explain. destruct (resolve rule_id) as [r|]; [|done].
  destruct (requires_pattern r && _) eqn:Hreq; [done|].
  unfold forward_explain. destruct (existsb has_cache (layers st)); [done|].
  destruct (fill (layers st) x) as [y filled] eqn:Hfill.
  intros [= HA _]. unfold attribute in HA. rewrite Hreq in HA.
  unfold mbind at 1, result_bind, rbind in HA.
  destruct (select selector y) as [R|] eqn:HR; [|done].
  exists r, R. split; [done|]. split; [done|].
  intros k a Ha. apply mapM_Ok in HA.
  destruct (Forall2_lookup_r _ _ _ _ _ HA Ha) as ([k' Rk] & HRk & Hsw).
  rewrite list_lookup_imap in HRk.
  destruct (R !! k) as [Rk'|] eqn:HR'; [|done].
  simpl in HRk. injection HRk as <- <-. by exists Rk'.
Qed.

Lemma select_default_sum y R k Rk :
  select None y = Ok R -> R !! k = Some Rk -> qsum Rk == 1.
Proof.
  unfold select. simpl. unfold mbind, result_bind, rbind.
  destruct (Script.max1_indices y) as [idx|] eqn:Hidx; [|done]. simpl.
  destruct (Nat.eqb (length idx) (length y)); [|done].
  intros [= <-] Hk. unfold Script.seed in Hk.
  rewrite lookup_zip_with in Hk.
  destruct (y !! k) as [row|] eqn:Hrow; [|done]. simpl in Hk.
  destruct (idx !! k) as [j|] eqn:Hj; [|done]. simpl in Hk.
  injection Hk as <-.
  apply SelectFacts.max1_indices_spec in Hidx.
  destruct (Forall2_lookup_lr _ _ _ _ _ _ Hidx Hrow Hj) as (m & Hm & _).
  apply one_hot_sum. by eapply lookup_lt_Some.
Qed.




(** The shape theorem at pattern-attribution and pattern-net on the same
    patterns: the attributions differ, their shape is that of the input;
    and at the input-times-gradient call of [main]. *)
Lemma attribution_has_input_shape_witness :
  (exists A1 A2 st1 st2,
     explain "patternattribution" (Some [[[1; 1]; [2; 0]]]) None [[1; 1]; [2; 1]]
       (Examples.fresh Examples.net1) = (Ok A1, st1) /\
     explain "patternnet" (Some [[[1; 1]; [2; 0]]]) None [[1; 1]; [2; 1]]
       (Examples.fresh Examples.net1) = (Ok A2, st2) /\
     A1 <> A2 /\
     shape A1 = shape [[1; 1]; [2; 1]] /\
     shape A2 = shape [[1; 1]; [2; 1]]) /\
  (exists run st',
     Script.run_and_plot_rule (M := EngineModel.model Examples.net1)
       "gradient" (Some "input x gradient")
       (Some (Script.NewTensor
                (fun a => Script.tensor_mul a (Script.x_data Examples.x1))))
       None "seismic" Examples.x1 = (Ok run, st') /\
     shape (Script.attribution run) = shape (Script.x_data Examples.x1) /\
     shape (Script.heat run) = shape (Script.x_data Examples.x1)).
Proof.
  split.
  - eexists _, _, _, _.
    split; [vm_compute; reflexivity|].
    split; [vm_compute; reflexivity|].
    split; [discriminate|].
    split.
    + apply (proj1 attribution_has_input_shape "patternattribution"
               (Some [[[1; 1]; [2; 0]]]) None [[1; 1]; [2; 1]]
               (Examples.fresh Examples.net1) _
               {| layers := clear (snd (fill Examples.net1 [[1; 1]; [2; 1]]));
                  forward_passes := 1; backward_sweeps := 1 |}).
      vm_compute; reflexivity.
    + apply (proj1 attribution_has_input_shape "patternnet"
               (Some [[[1; 1]; [2; 0]]]) None [[1; 1]; [2; 1]]
               (Examples.fresh Examples.net1) _
               {| layers := clear (snd (fill Examples.net1 [[1; 1]; [2; 1]]));
                  forward_passes := 1; backward_sweeps := 1 |}).
      vm_compute; reflexivity.
  - eexists _, _. split; [vm_compute; reflexivity|].
    eapply (proj2 attribution_has_input_shape Examples.net1
              "gradient" (Some "input x gradient")
              (Some (Script.NewTensor
                       (fun a => Script.tensor_mul a (Script.x_data Examples.x1))))
              None "seismic" Examples.x1).
    + vm_compute; reflexivity.
    + by right.
Defined.

End EngineFacts.

(** ** The Pattern Fitter *)

Module FitterFacts.
Import Engine Fitter.

Lemma batches_fold (v : Variant) (net : list Layer) (batches : list Tensor)
    (n : nat) (accs : list (list Acc)) :
  fold_left (fun '(nb, accs) batch => (S nb, fold_left (feed v net) batch accs))
            batches (n, accs)
  = ((n + length batches)%nat, fold_left (feed v net) (concat batches) accs).
Proof.
  revert n accs. induction batches as [|b batches IH]; intros n accs; simpl.
  - by rewrite Nat.add_0_r.
  - rewrite IH, fold_left_app. f_equal. lia.
Qed.

Lemma unit_fold (v : Variant) (us : list (list Q * Q)) (xs : list Sample)
    (a : list Acc) :
  length a = length us ->
  fold_left (fun a x => zip_with (fun u acc => acc_add v (fst u) (snd u) acc x) us a)
            xs a
  = zip_with (fun u acc => fold_left (acc_add v (fst u) (snd u)) xs acc) us a.
Proof.
  revert a. induction xs as [|x xs IH]; intros a Hlen; simpl.
  - revert a Hlen. induction us as [|u us IHu]; intros [|acc a] Hlen; try done.
    simpl. f_equal. apply IHu. simpl in Hlen. lia.
  - rewrite IH by (rewrite length_zip_with; lia).
    clear IH. revert a Hlen.
    induction us as [|u us IHu]; intros [|acc a] Hlen; try done.
    simpl. f_equal. apply IHu. simpl in Hlen. lia.
Qed.

Lemma feed_fold (v : Variant) (l : Layer) (net : list Layer) (xs : list Sample)
    (a : list Acc) (accs : list (list Acc)) :
  fold_left (feed v (l :: net)) xs (a :: accs)
  = fold_left (fun a x => zip_with (fun u acc => acc_add v (fst u) (snd u) acc x)
                                   (units l) a) xs a
    :: fold_left (feed v net) (map (layer_out l) xs) accs.
Proof.
  revert a accs. induction xs as [|x xs IH]; intros a accs; [done|].
  simpl. by rewrite IH.
Qed.

Lemma finish_fold (v : Variant) (net : list Layer) (xs : list Sample) :
  finish net (fold_left (feed v net) xs (init net)) = collect_one_pass v net xs.
Proof.
  revert xs. induction net as [|l net IH]; intros xs.
  - unfold finish. by destruct (fold_left _ _ _).
  - change (init (l :: net))
      with (map (fun u => acc_init (length (fst u))) (units l) :: init net).
    rewrite feed_fold. unfold finish. simpl. fold (finish net).
    rewrite IH. f_equal.
    rewrite unit_fold by (by rewrite length_map).
    unfold direction_one_pass.
    induction (units l) as [|u us IHu]; [done|]. simpl. by rewrite IHu.
Qed.

Lemma fit_streams (v : Variant) (net : list Layer) (batches : list Tensor) :
  fit v net batches
  = match batches with
    | [] => Raise EmptyDatasetError
    | _ => Ok (collect_one_pass v net (concat batches))
    end.
Proof.
  unfold fit. rewrite batches_fold, finish_fold.
  destruct batches; [done|]. done.
Qed.

(** *** The accumulators after the pass *)


Lemma size_cons (x : Sample) (K : list Sample) : size (x :: K) == size K + 1.
Proof.
  unfold size. simpl length. rewrite Nat2Z.inj_succ, <- Z.add_1_r.
  by rewrite inject_Z_plus.
Qed.

Lemma size_nonzero (x : Sample) (K : list Sample) : ~ size (x :: K) == 0.
Proof.
  unfold size, Qeq. simpl Qnum. simpl Qden. lia.
Qed.

Lemma nth_imap {A} (f : nat -> A -> Q) (l : list A) (d : A) (i : nat) :
  (i < length l)%nat -> nth i (imap f l) 0 = f i (nth i l d).
Proof.
  intros Hi. rewrite !nth_lookup, list_lookup_imap.
  by destruct (lookup_lt_is_Some_2 l i Hi) as [a ->].
Qed.

Lemma fold_keeps (v : Variant) (w : list Q) (b : Q) (xs : list Sample) (a : Acc) :
  fold_left (acc_add v w b) xs a
  = fold_left (acc_add AllData w b)
      (filter (fun x => keep v (unit_out w b x) = true) xs) a.
Proof.
  revert a. induction xs as [|x xs IH]; intros a; [done|].
  rewrite filter_cons. simpl. rewrite IH.
  unfold acc_add at 2. destruct (keep v (unit_out w b x)) eqn:Hk.
  - rewrite decide_True by done. done.
  - rewrite decide_False by done. done.
Qed.

Section Unit.
Variables (w : list Q) (b : Q).

Let pass (K : list Sample) (a : Acc) : Acc := fold_left (acc_add AllData w b) K a.

Lemma pass_count (K : list Sample) (a : Acc) :
  count (pass K a) == count a + size K.
Proof.
  revert a. induction K as [|x K IH]; intros a.
  - simpl. unfold size. simpl. ring.
  - unfold pass in *. simpl. rewrite IH. simpl. rewrite size_cons. ring.
Qed.

Lemma pass_sum_x_length (K : list Sample) (a : Acc) :
  length (sum_x (pass K a)) = length (sum_x a).
Proof.
  revert a. induction K as [|x K IH]; intros a; [done|].
  unfold pass in *. simpl. rewrite IH. simpl. apply length_imap.
Qed.

Lemma pass_sum_xy_length (K : list Sample) (a : Acc) :
  length (sum_xy (pass K a)) = length (sum_xy a).
Proof.
  revert a. induction K as [|x K IH]; intros a; [done|].
  unfold pass in *. simpl. rewrite IH. simpl. apply length_imap.
Qed.

Lemma pass_sum_x (K : list Sample) (a : Acc) (i : nat) :
  (i < length (sum_x a))%nat ->
  nth i (sum_x (pass K a)) 0
  == nth i (sum_x a) 0 + qsum (map (fun x => nth i x 0) K).
Proof.
  revert a. induction K as [|x K IH]; intros a Hi.
  - simpl. ring.
  - unfold pass in *. simpl. rewrite IH by (simpl; by rewrite length_imap).
    simpl. rewrite (nth_imap _ _ 0) by done. ring.
Qed.

Lemma pass_sum_xy (K : list Sample) (a : Acc) (i : nat) :
  (i < length (sum_xy a))%nat ->
  nth i (sum_xy (pass K a)) 0
  == nth i (sum_xy a) 0 + qsum (map (fun x => unit_out w b x * nth i x 0) K).
Proof.
  revert a. induction K as [|x K IH]; intros a Hi.
  - simpl. ring.
  - unfold pass in *. simpl. rewrite IH by (simpl; by rewrite length_imap).
    simpl. rewrite (nth_imap _ _ 0) by done. ring.
Qed.

End Unit.

Lemma nth_repeat_zero (d i : nat) : nth i (repeat 0 d) 0 = 0.
Proof. revert i. induction d as [|d IH]; intros [|i]; simpl; auto. Qed.

(** *** Weighted sums *)

Lemma dot_imap (w u : list Q) :
  dot w u == qsum (imap (fun i wi => wi * nth i u 0) w).
Proof.
  unfold dot. revert u. induction w as [|wi w IH]; intros u.
  - reflexivity.
  - destruct u as [|u0 u].
    + simpl. symmetry.
      rewrite (qsum_imap_zero ((fun i wi' => wi' * nth i [] 0) ∘ S) w).
      * ring.
      * intros i a. unfold compose. simpl. ring.
    + simpl. rewrite IH. reflexivity.
Qed.

Lemma qsum_map_plus {A} (f g : A -> Q) (K : list A) :
  qsum (map (fun x => f x + g x) K) == qsum (map f K) + qsum (map g K).
Proof. induction K as [|x K IH]; simpl; [ring|]. rewrite IH. ring. Qed.

Lemma qsum_map_scale {A} (c : Q) (f : A -> Q) (K : list A) :
  qsum (map (fun x => c * f x) K) == c * qsum (map f K).
Proof. induction K as [|x K IH]; simpl; [ring|]. rewrite IH. ring. Qed.

Lemma qsum_map_const (c : Q) (K : list Sample) :
  qsum (map (fun _ => c) K) == size K * c.
Proof.
  induction K as [|x K IH].
  - unfold size. simpl. ring.
  - simpl qsum. rewrite IH, size_cons. ring.
Qed.

(** A weighted sum of sums over the samples is the sum of the weighted
    sums. *)
Lemma qsum_imap_map_swap {A} (w : list Q) (f : nat -> A -> Q) (K : list A) :
  qsum (imap (fun i wi => wi * qsum (map (f i) K)) w)
  == qsum (map (fun x => qsum (imap (fun i wi => wi * f i x) w)) K).
Proof.
  induction K as [|x K IH]; simpl.
  - apply qsum_imap_zero. intros i a. ring.
  - rewrite <- IH.
    rewrite <- (qsum_imap_plus (fun i wi => wi * f i x)
                  (fun i wi => wi * qsum (map (f i) K)) w).
    apply qsum_imap_ext. intros i wi _. ring.
Qed.

(** *** The covariance from running sums *)

Lemma zip_with_map_map {A} (h : Q -> Q -> Q) (f g : A -> Q) (K : list A) :
  zip_with h (map f K) (map g K) = map (fun x => h (f x) (g x)) K.
Proof. induction K as [|x K IH]; simpl; [done|]. by rewrite IH. Qed.

Lemma qsum_centered (f g : Sample -> Q) (mu mv : Q) (K : list Sample) :
  qsum (map (fun x => (f x - mu) * (g x - mv)) K)
  == qsum (map (fun x => f x * g x) K) - mv * qsum (map f K)
     - mu * qsum (map g K) + size K * mu * mv.
Proof.
  induction K as [|x K IH].
  - unfold size. simpl. ring.
  - simpl qsum. rewrite IH, size_cons. ring.
Qed.

Lemma covariance_sums (f g : Sample -> Q) (K : list Sample) :
  covariance (map f K) (map g K)
  == qsum (map (fun x => f x * g x) K) / size K
     - (qsum (map f K) / size K) * (qsum (map g K) / size K).
Proof.
  unfold covariance, mean. rewrite zip_with_map_map, !length_map.
  fold (size K).
  destruct K as [|x0 K0]; [reflexivity|].
  set (K := x0 :: K0). pose proof (size_nonzero x0 K0) as Hn. fold K in Hn.
  rewrite qsum_centered. field. exact Hn.
Qed.

Section Closed_form.
Variables (w : list Q) (b : Q) (K : list Sample) (a : Acc).
Hypothesis Hcount : count a == size K.
Hypothesis Hlen_x : length (sum_x a) = length w.
Hypothesis Hlen_xy : length (sum_xy a) = length w.
Hypothesis Hsum_x : forall i, (i < length w)%nat ->
  nth i (sum_x a) 0 == qsum (map (fun x => nth i x 0) K).
Hypothesis Hsum_xy : forall i, (i < length w)%nat ->
  nth i (sum_xy a) 0 == qsum (map (fun x => unit_out w b x * nth i x 0) K).

Let ys : list Q := map (unit_out w b) K.

Lemma sum_of_outputs :
  qsum ys == qsum (map (dot w) K) + size K * b.
Proof using Type.
  unfold ys, unit_out. rewrite qsum_map_plus, qsum_map_const. reflexivity.
Qed.

Lemma projected_sums (f : Sample -> Q) :
  qsum (imap (fun i wi => wi * qsum (map (fun x => f x * nth i x 0) K)) w)
  == qsum (map (fun x => f x * dot w x) K).
Proof using Type.
  rewrite (qsum_imap_map_swap w (fun i x => f x * nth i x 0) K).
  apply qsum_ext. intros x _. rewrite dot_imap.
  rewrite <- (qsum_imap_scale (f x) (fun i wi => wi * nth i x 0) w).
  apply qsum_imap_ext. intros i wi _. ring.
Qed.

Lemma projected_mean :
  dot w (map (fun s => s / count a) (sum_x a)) == qsum (map (dot w) K) / size K.
Proof using Hcount Hlen_x Hlen_xy Hsum_x Hsum_xy.
  rewrite dot_imap.
  transitivity (qsum (imap (fun i wi =>
                        / size K * (wi * qsum (map (fun x => 1 * nth i x 0) K))) w)).
  - apply qsum_imap_ext. intros i wi Hi. apply lookup_lt_Some in Hi.
    rewrite nth_lookup, list_lookup_fmap.
    destruct (lookup_lt_is_Some_2 (sum_x a) i) as [s Hs]; [lia|].
    rewrite Hs. simpl.
    assert (s == qsum (map (fun x => nth i x 0) K)) as ->.
    { rewrite <- (Hsum_x i Hi). rewrite nth_lookup, Hs. reflexivity. }
    rewrite Hcount. unfold Qdiv.
    rewrite (qsum_ext (fun x => 1 * nth i x 0) (fun x => nth i x 0));
      [ring|]. intros x _. ring.
  - rewrite (qsum_imap_scale (/ size K)
               (fun i wi => wi * qsum (map (fun x => 1 * nth i x 0) K))).
    rewrite (projected_sums (fun _ => 1)).
    rewrite (qsum_ext (fun x => 1 * dot w x) (dot w)); [unfold Qdiv; ring|].
    intros x _. ring.
Qed.


Lemma cov_acc_covariance (i : nat) :
  (i < length w)%nat ->
  cov_acc w b a i == covariance (map (fun x => nth i x 0) K) ys.
Proof using Hcount Hlen_x Hlen_xy Hsum_x Hsum_xy.
  intros Hi. unfold cov_acc, ys.
  rewrite covariance_sums, projected_mean, (Hsum_x i Hi), (Hsum_xy i Hi), Hcount.
  fold ys. rewrite sum_of_outputs.
  rewrite (qsum_ext (fun x => nth i x 0 * unit_out w b x)
             (fun x => unit_out w b x * nth i x 0)) by (intros x _; ring).
  destruct K as [|x0 K0] eqn:HK; [reflexivity|].
  pose proof (size_nonzero x0 K0) as Hn. field. exact Hn.
Qed.

Lemma cov_acc_projected :
  qsum (imap (fun i wi => wi * cov_acc w b a i) w)
  == covariance (map (dot w) K) ys.
Proof using Hcount Hlen_x Hlen_xy Hsum_x Hsum_xy.
  transitivity
    (qsum (imap (fun i wi =>
                   / size K * (wi * qsum (map (fun x => unit_out w b x * nth i x 0) K))
                   + (- (/ size K * (qsum ys / size K)))
                     * (wi * qsum (map (fun x => 1 * nth i x 0) K))) w)).
  - apply qsum_imap_ext. intros i wi Hi. apply lookup_lt_Some in Hi.
    rewrite (cov_acc_covariance i Hi). unfold ys.
    rewrite covariance_sums. fold ys.
    rewrite (qsum_ext (fun x => nth i x 0 * unit_out w b x)
               (fun x => unit_out w b x * nth i x 0)) by (intros x _; ring).
    rewrite (qsum_ext (fun x => 1 * nth i x 0) (fun x => nth i x 0))
      by (intros x _; ring).
    unfold Qdiv. ring.
  - rewrite (qsum_imap_plus
               (fun i wi => / size K
                            * (wi * qsum (map (fun x => unit_out w b x * nth i x 0) K)))
               (fun i wi => (- (/ size K * (qsum ys / size K)))
                            * (wi * qsum (map (fun x => 1 * nth i x 0) K))) w).
    rewrite (qsum_imap_scale (/ size K)
               (fun i wi => wi * qsum (map (fun x => unit_out w b x * nth i x 0) K))).
    rewrite (qsum_imap_scale (- (/ size K * (qsum ys / size K)))
               (fun i wi => wi * qsum (map (fun x => 1 * nth i x 0) K))).
    rewrite (projected_sums (unit_out w b)), (projected_sums (fun _ => 1)).
    unfold ys. rewrite covariance_sums. fold ys.
    rewrite (qsum_ext (fun x => 1 * dot w x) (dot w)) by (intros x _; ring).
    rewrite (qsum_ext (fun x => dot w x * unit_out w b x)
               (fun x => unit_out w b x * dot w x)) by (intros x _; ring).
    unfold Qdiv. ring.
Qed.

End Closed_form.

(** *** One pass against two passes *)

Lemma unit_equivalence (v : Variant) (w : list Q) (b : Q) (xs : list Sample) :
  Forall2 Qeq (direction_one_pass v w b xs) (direction_two_pass v w b xs).
Proof.
  unfold direction_one_pass, direction_two_pass. cbv zeta. rewrite fold_keeps.
  set (K := filter (fun x => keep v (unit_out w b x) = true) xs).
  set (a := fold_left (acc_add AllData w b) K (acc_init (length w))).
  assert (count a == size K) as Hcount.
  { unfold a. rewrite pass_count. simpl. ring. }
  assert (length (sum_x a) = length w) as Hlen_x.
  { unfold a. rewrite pass_sum_x_length. simpl. apply repeat_length. }
  assert (length (sum_xy a) = length w) as Hlen_xy.
  { unfold a. rewrite pass_sum_xy_length. simpl. apply repeat_length. }
  assert (forall i, (i < length w)%nat ->
            nth i (sum_x a) 0 == qsum (map (fun x => nth i x 0) K)) as Hsum_x.
  { intros i Hi. unfold a. rewrite pass_sum_x by (simpl; by rewrite repeat_length).
    simpl. rewrite nth_repeat_zero. ring. }
  assert (forall i, (i < length w)%nat ->
            nth i (sum_xy a) 0
            == qsum (map (fun x => unit_out w b x * nth i x 0) K)) as Hsum_xy.
  { intros i Hi. unfold a. rewrite pass_sum_xy by (simpl; by rewrite repeat_length).
    simpl. rewrite nth_repeat_zero. ring. }
  unfold direction_of_acc.
  set (cov := imap (fun i sxy =>
                      sxy / count a
                      - nth i (sum_x a) 0 / count a
                        * (dot w (map (fun s => s / count a) (sum_x a)) + b))
                   (sum_xy a)).
  assert (forall i, (i < length w)%nat -> nth i cov 0 = cov_acc w b a i) as Hcov.
  { intros i Hi. unfold cov. rewrite (nth_imap _ _ 0) by lia. reflexivity. }
  assert (dot w cov == covariance (map (dot w) K) (map (unit_out w b) K)) as Hden.
  { rewrite dot_imap.
    rewrite <- (cov_acc_projected w b K a Hcount Hlen_x Hlen_xy Hsum_x Hsum_xy).
    apply qsum_imap_ext. intros i wi Hi. apply lookup_lt_Some in Hi.
    by rewrite Hcov. }
  apply Forall2_same_length_lookup_2.
  - rewrite !length_map, length_seq. unfold cov. by rewrite length_imap.
  - intros i p q Hp Hq.
    rewrite list_lookup_fmap in Hp. rewrite list_lookup_fmap in Hq.
    destruct (cov !! i) as [c|] eqn:Hc; [|done].
    destruct (seq 0 (length w) !! i) as [i'|] eqn:Hi; [|done].
    apply lookup_seq in Hi as [-> Hi]. simpl in Hp, Hq.
    injection Hp as <-. injection Hq as <-.
    assert (c = cov_acc w b a i) as ->.
    { rewrite <- (Hcov i Hi). by rewrite nth_lookup, Hc. }
    rewrite Hden.
    by rewrite (cov_acc_covariance w b K a Hcount Hlen_x Hlen_xy Hsum_x Hsum_xy i Hi).
Qed.

Lemma collect_equivalence (v : Variant) (net : list Layer) (xs : list Sample) :
  Forall2 (Forall2 (Forall2 Qeq)) (collect_one_pass v net xs) (collect v net xs).
Proof.
  revert xs. induction net as [|l net IH]; intros xs; simpl; constructor.
  - apply Forall2_fmap, Forall_Forall2_diag, Forall_forall.
    intros u _. apply unit_equivalence.
  - apply IH.
Qed.

Lemma Qeq_close (a b : Q) : a == b -> close a b.
Proof. intros H. unfold close. rewrite H. by ring_simplify (b - b). Qed.

(** The formulas with the arithmetic left open, read over the rationals,
    are the fitter's. *)
Lemma acc_add_at_Q (v : Variant) (w : list Q) (b : Q) (xs : list Sample)
    (ga : Formulas.GAcc Q) (a : Acc) :
  Formulas.gcount Q ga = count a -> Formulas.gsum_x Q ga = sum_x a ->
  Formulas.gsum_xy Q ga = sum_xy a ->
  let ga' := fold_left (Formulas.gacc_add Q 0 1 Qplus Qmult
                          (fun y => if Qlt_le_dec 0 y then true else false) v w b)
                       xs ga in
  let a' := fold_left (acc_add v w b) xs a in
  Formulas.gcount Q ga' = count a' /\ Formulas.gsum_x Q ga' = sum_x a' /\
  Formulas.gsum_xy Q ga' = sum_xy a'.
Proof.
  revert ga a. induction xs as [|x xs IH]; intros ga a Hc Hx Hxy; [done|].
  simpl. apply IH; unfold Formulas.gacc_add, acc_add;
    change (Formulas.gkeep Q (fun y => if Qlt_le_dec 0 y then true else false) v
              (Formulas.gunit_out Q 0 Qplus Qmult w b x))
      with (keep v (unit_out w b x));
    destruct (keep v (unit_out w b x)); simpl; try done.
  - by rewrite Hc.
  - by rewrite Hx.
  - by rewrite Hxy.
Qed.

Lemma one_pass_at_Q (v : Variant) (w : list Q) (b : Q) (xs : list Sample) :
  Formulas.one_pass_Q v w b xs = direction_one_pass v w b xs.
Proof.
  unfold Formulas.one_pass_Q, Formulas.gdirection_one_pass, direction_one_pass.
  destruct (acc_add_at_Q v w b xs (Formulas.gacc_init Q 0 (length w))
              (acc_init (length w)) eq_refl eq_refl eq_refl) as (Hc & Hx & Hxy).
  unfold Formulas.gdirection_of_acc, direction_of_acc. cbv zeta.
  rewrite Hc, Hx, Hxy. reflexivity.
Qed.

Lemma two_pass_at_Q (v : Variant) (w : list Q) (b : Q) (xs : list Sample) :
  Formulas.two_pass_Q v w b xs = direction_two_pass v w b xs.
Proof. reflexivity. Qed.




Lemma fit_loader_empty `{S : Setup} (v : Variant) (model : list Layer)
    (loader : Gen -> list Tensor * Gen) (r : Script.Rngs Gen) :
  fst (loader (Script.torch_random r)) = [] ->
  fit_loader v model loader r
  = (Raise EmptyDatasetError,
     {| Script.py_random := Script.py_random r;
        Script.np_random := Script.np_random r;
        Script.torch_random := snd (loader (Script.torch_random r)) |}).
Proof.
  unfold fit_loader. destruct (loader (Script.torch_random r)) as [bs g].
  simpl. by intros ->.
Qed.

(** C8: a training set without batches makes the fitter fail with
    [EmptyDatasetError], and that is its only failure; in the script the
    error is what [main] returns: the fitter was called once, nothing was
    stored and the second fitter was not reached. *)
Theorem empty_training_set `{S : Setup} (v : Variant) (net : list Layer) :
  fit v net [] = Raise EmptyDatasetError /\
  (forall batches e, fit v net batches = Raise e ->
                     batches = [] /\ e = EmptyDatasetError) /\
  (forall (args : Script.Args) (base_path : string)
          (w w2 : Script.World (C := collaborators)) model train_loader x,
     Script.setup args w = (Ok (model, train_loader, x), w2) ->
     Script.disk w !! Script.all_patterns_path base_path = None ->
     fst (train_loader (Script.torch_random (Script.rngs w2))) = [] ->
     fst (Script.main_patterns args base_path w) = Raise EmptyDatasetError /\
     Script.disk (snd (Script.main_patterns args base_path w)) = Script.disk w /\
     Script.trace (snd (Script.main_patterns args base_path w))
     = Script.trace w ++ [Script.EvFit false]).
Proof.
  split; [done|]. split.
  - intros batches e. rewrite fit_streams.
    destruct batches; [by intros [= <-]|done].
  - intros args base_path w w2 model train_loader x Hsetup Hdisk Hempty.
    unfold Script.main_patterns.
    pose proof (MainFacts.setup_frame args w) as [Hd Ht].
    rewrite Hsetup in Hd, Ht |- *. simpl in Hd, Ht.
    rewrite MainFacts.fit_or_load_missing by (by rewrite Hd).
    change (Script.fit_patternnet model train_loader (Script.rngs w2))
      with (fit_loader AllData model train_loader (Script.rngs w2)).
    rewrite (fit_loader_empty AllData model train_loader _ Hempty).
    simpl. by rewrite Hd, Ht.
Qed.

(** The theorem in a world without pattern files and with a training
    loader that yields nothing. *)
Lemma empty_training_set_witness :
  fst (Script.main_patterns (C := @collaborators Examples.empty_setup)
         (Examples.toy_args false (Some 7%Z)) "/repo"
         (@Script.Build_World (@collaborators Examples.empty_setup)
            (Examples.toy_rngs 3) ∅ []))
  = Raise EmptyDatasetError.
Proof.
  eapply (proj2 (proj2 (empty_training_set (S := Examples.empty_setup)
                          AllData Examples.net2))
            (Examples.toy_args false (Some 7%Z)) "/repo"
            (@Script.Build_World (@collaborators Examples.empty_setup)
               (Examples.toy_rngs 3) ∅ [])).
  - reflexivity.
  - reflexivity.
  - reflexivity.
Defined.

End FitterFacts.

(** ** The figure *)

Module FigureFacts.
Import Figure.

Local Open Scope nat_scope.

Lemma elem_of_cells (rows cols : Z) (i j : nat) :
  (i, j) ∈ cells rows cols <-> i < Z.to_nat rows /\ j < Z.to_nat cols.
Proof.
  unfold cells, range. rewrite list_elem_of_In, in_concat. split.
  - intros (l & Hl & Hin). apply in_map_iff in Hl as (i' & <- & Hi).
    apply in_map_iff in Hin as (j' & [= <- <-] & Hj).
    apply in_seq in Hi, Hj. lia.
  - intros [Hi Hj]. exists (map (fun j => (i, j)) (seq 0 (Z.to_nat cols))). split.
    + apply in_map_iff. exists i. split; [done|]. apply in_seq. lia.
    + apply in_map_iff. exists j. split; [done|]. apply in_seq. lia.
Qed.

Lemma length_cells (rows cols : Z) :
  length (cells rows cols) = Z.to_nat rows * Z.to_nat cols.
Proof.
  unfold cells, range. generalize 0 at 2.
  induction (Z.to_nat rows) as [|n IH]; intros s; [done|].
  simpl. rewrite length_app, length_map, length_seq, IH. done.
Qed.

Lemma add_texts_nil (ax : Axes) : add_texts ax [] = ax.
Proof. destruct ax. unfold add_texts. simpl. by rewrite app_nil_r. Qed.

(** The loop writes the labels of the cells before the first index past
    the end of the predictions, and fails if there is one. *)
Lemma write_texts_spec (todo : list (nat * nat)) (preds : list nat) (ax : Axes) :
  exists done_,
    done_ `prefix_of` todo /\
    Forall (fun c => fst c * 4 + snd c < length preds) done_ /\
    snd (write_texts todo preds ax) = add_texts ax (map (label preds) done_) /\
    (fst (write_texts todo preds ax) = Ok tt /\ done_ = todo \/
     fst (write_texts todo preds ax) = Raise RuntimeError /\
     exists c, c ∈ todo /\ length preds <= fst c * 4 + snd c).
Proof.
  revert ax. induction todo as [|[i j] todo IH]; intros ax.
  - exists []. simpl. rewrite add_texts_nil.
    split; [done|]. split; [constructor|]. split; [done|]. by left.
  - simpl. destruct (preds !! (i * 4 + j)) as [p|] eqn:Hp.
    + destruct (IH (add_texts ax [((28 + Z.of_nat j * 30)%Z,
                                   (30 + Z.of_nat i * 30)%Z, p)]))
        as (d & Hpre & Hall & Hsnd & Hres).
      exists ((i, j) :: d). split; [by apply prefix_cons|]. split.
      { constructor; [|done]. simpl. by eapply lookup_lt_Some. }
      split.
      { unfold add_texts in *. simpl in *. rewrite Hsnd. f_equal.
        unfold label at 2. simpl. rewrite Hp. simpl. by rewrite <- app_assoc. }
      destruct Hres as [[Hok ->]|[Hbad (c & Hc & Hlen)]].
      * left. split; [exact Hok|done].
      * right. split; [exact Hbad|]. exists c. split; [by right|done].
    + exists []. simpl. rewrite add_texts_nil. split; [apply prefix_nil|].
      split; [constructor|]. split; [done|]. right. split; [done|].
      exists (i, j). split; [by left|]. simpl. by apply lookup_ge_None.
Qed.

Lemma plot_attribution_unfold `{L : PlotLib} (a : Image) (ax : Axes)
    (preds : list nat) (title : string) :
  let ax1 := {| ax_image := Some a; ax_axis_off := true;
                ax_texts := ax_texts ax; ax_title := ax_title ax |} in
  let w := write_texts (cells ((shape0 a - 2) / 30) ((shape1 a - 2) / 30)) preds ax1 in
  plot_attribution a ax preds title
  = if imshow_accepts a then
      match fst w with
      | Raise e => (Raise e, snd w)
      | Ok _ => (Ok tt, {| ax_image := ax_image (snd w);
                           ax_axis_off := ax_axis_off (snd w);
                           ax_texts := ax_texts (snd w);
                           ax_title := Some title |})
      end
    else (Raise RuntimeError, ax).
Proof.
  simpl. unfold plot_attribution. destruct (imshow_accepts a); [|done].
  by destruct (write_texts _ _ _) as [[[]|e] ax2].
Qed.

Lemma elem_of_label_cells (a : Image) (c : nat * nat) :
  c ∈ cells ((shape0 a - 2) / 30) ((shape1 a - 2) / 30)
  <-> fst c < label_rows a /\ snd c < label_cols a.
Proof. destruct c as [i j]. apply elem_of_cells. Qed.

Lemma plot_attribution_ok `{L : PlotLib} (a : Image) (ax : Axes)
    (preds : list nat) (title : string) :
  fst (plot_attribution a ax preds title) = Ok tt
  <-> imshow_accepts a = true /\
      (label_rows a = 0 \/ label_cols a = 0
       \/ 4 * (label_rows a - 1) + label_cols a <= length preds).
Proof.
  rewrite plot_attribution_unfold. cbv zeta.
  destruct (imshow_accepts a); [|simpl; split; [done|by intros [? _]]].
  set (ax1 := {| ax_image := Some a; ax_axis_off := true;
                 ax_texts := ax_texts ax; ax_title := ax_title ax |}).
  destruct (write_texts_spec
              (cells ((shape0 a - 2) / 30) ((shape1 a - 2) / 30)) preds ax1)
    as (d & Hpre & Hall & Hsnd & Hres).
  destruct Hres as [[Hok ->]|[Hbad (c & Hc & Hlen)]].
  - rewrite Hok. simpl. split; [intros _|done]. split; [done|].
    destruct (label_rows a) as [|r] eqn:Hr; [by left|].
    destruct (label_cols a) as [|k] eqn:Hk; [by right; left|].
    right; right.
    assert ((r, k) ∈ cells ((shape0 a - 2) / 30) ((shape1 a - 2) / 30)) as Hin.
    { apply elem_of_label_cells. simpl. lia. }
    pose proof (proj1 (Forall_forall _ _) Hall _ Hin) as Hlt. simpl in Hlt. lia.
  - rewrite Hbad. simpl. split; [done|]. intros [_ Hcond]. exfalso.
    apply elem_of_label_cells in Hc. lia.
Qed.

(** X1: [plot_attribution] returns exactly when [imshow] takes the array
    and every index [i*4+j] the loops read exists, that is when there is
    no row or no column of labels or the predictions number at least
    [4*(rows-1)+cols]; otherwise it raises: at line 46 with the axes
    untouched, or at line 52 after the image was shown and before the
    title is set. *)
Theorem plot_attribution_returns_iff `{L : PlotLib} (a : Image) (ax : Axes)
    (preds : list nat) (title : string) :
  (fst (plot_attribution a ax preds title) = Ok tt
   <-> imshow_accepts a = true /\
       (label_rows a = 0 \/ label_cols a = 0
        \/ 4 * (label_rows a - 1) + label_cols a <= length preds)) /\
  (imshow_accepts a = false ->
   plot_attribution a ax preds title = (Raise RuntimeError, ax)) /\
  (imshow_accepts a = true ->
   fst (plot_attribution a ax preds title) <> Ok tt ->
   fst (plot_attribution a ax preds title) = Raise RuntimeError /\
   ax_image (snd (plot_attribution a ax preds title)) = Some a /\
   ax_title (snd (plot_attribution a ax preds title)) = ax_title ax).
Proof.
  split; [apply plot_attribution_ok|].
  rewrite plot_attribution_unfold. cbv zeta.
  split; [by intros ->|]. intros ->.
  set (ax1 := {| ax_image := Some a; ax_axis_off := true;
                 ax_texts := ax_texts ax; ax_title := ax_title ax |}).
  destruct (write_texts_spec
              (cells ((shape0 a - 2) / 30) ((shape1 a - 2) / 30)) preds ax1)
    as (d & Hpre & Hall & Hsnd & Hres).
  destruct Hres as [[Hok ->]|[Hbad _]].
  - rewrite Hok. simpl. done.
  - rewrite Hbad. simpl. intros _. rewrite Hsnd. done.
Qed.

(** The theorem on the grid of five images in four columns, 62 by 122
    pixels, with five predictions: the second row of labels runs past
    them; and on an array without rows, which [imshow] refuses. *)
Lemma plot_attribution_returns_iff_witness :
  (fst (plot_attribution (H := toy_lib) (blank 62 122) empty_axes
          [7; 2; 1; 0; 4] "epsilon")
   = Raise RuntimeError /\
   ax_image (snd (plot_attribution (H := toy_lib) (blank 62 122) empty_axes
                    [7; 2; 1; 0; 4] "epsilon"))
   = Some (blank 62 122) /\
   ax_title (snd (plot_attribution (H := toy_lib) (blank 62 122) empty_axes
                    [7; 2; 1; 0; 4] "epsilon"))
   = None) /\
  plot_attribution (H := toy_lib) [] empty_axes [7] "epsilon"
  = (Raise RuntimeError, empty_axes).
Proof.
  split.
  - apply (proj2 (proj2 (plot_attribution_returns_iff (L := toy_lib)
                           (blank 62 122) empty_axes [7; 2; 1; 0; 4] "epsilon"))).
    + vm_compute; reflexivity.
    + vm_compute. discriminate.
  - apply (proj1 (proj2 (plot_attribution_returns_iff (L := toy_lib)
                           [] empty_axes [7] "epsilon"))).
    reflexivity.
Defined.

(** X2: whatever [plot_attribution] has written, on return or on failure,
    are the labels of the first cells in loop order, each with the
    prediction at its index [i*4+j] and anchored inside the image; on
    return every cell has its label, [rows * cols] of them. *)
Theorem plot_attribution_labels `{L : PlotLib} (a : Image) (ax : Axes)
    (preds : list nat) (title : string) :
  exists written,
    written `prefix_of` cells ((shape0 a - 2) / 30) ((shape1 a - 2) / 30) /\
    ax_texts (snd (plot_attribution a ax preds title))
    = ax_texts ax ++ map (label preds) written /\
    Forall (fun c => preds !! pred_index c = Some (snd (label preds c)) /\
                     (0 < fst (fst (label preds c)) < shape1 a)%Z /\
                     (0 < snd (fst (label preds c)) < shape0 a)%Z) written /\
    (fst (plot_attribution a ax preds title) = Ok tt ->
     length written = label_rows a * label_cols a).
Proof.
  rewrite plot_attribution_unfold. cbv zeta.
  destruct (imshow_accepts a); cycle 1.
  { exists []. simpl. split; [apply prefix_nil|]. split; [by rewrite app_nil_r|].
    split; [constructor|done]. }
  set (ax1 := {| ax_image := Some a; ax_axis_off := true;
                 ax_texts := ax_texts ax; ax_title := ax_title ax |}).
  destruct (write_texts_spec
              (cells ((shape0 a - 2) / 30) ((shape1 a - 2) / 30)) preds ax1)
    as (d & Hpre & Hall & Hsnd & Hres).
  exists d. split; [done|]. split; [|split].
  - destruct (fst (write_texts _ _ _)) as [[]|e]; simpl; by rewrite Hsnd.
  - apply Forall_forall. intros [i j] Hc.
    pose proof (proj1 (Forall_forall _ _) Hall _ Hc) as Hlt. simpl in Hlt.
    assert ((i, j) ∈ cells ((shape0 a - 2) / 30) ((shape1 a - 2) / 30)) as Hin.
    { destruct Hpre as [rest ->]. apply elem_of_app. by left. }
    apply elem_of_label_cells in Hin as [Hi Hj]. simpl in Hi, Hj.
    unfold label_rows in Hi. unfold label_cols in Hj.
    pose proof (Z.mul_div_le (shape0 a - 2) 30 eq_refl) as H0.
    pose proof (Z.mul_div_le (shape1 a - 2) 30 eq_refl) as H1.
    unfold label, pred_index. simpl.
    destruct (lookup_lt_is_Some_2 preds (i * 4 + j) Hlt) as [p ->]. simpl.
    split; [done|]. lia.
  - destruct Hres as [[Hok ->]|[Hbad _]].
    + intros _. apply length_cells.
    + rewrite Hbad. simpl. done.
Qed.

(** X3: two cells of the label grid read the same prediction only if
    they are the same cell, exactly when the grid has at most four columns
    or at most one row. *)
Theorem pred_index_injective_iff (rows cols : Z) :
  (forall c c', c ∈ cells rows cols -> c' ∈ cells rows cols ->
                pred_index c = pred_index c' -> c = c')
  <-> (cols <= 4 \/ rows <= 1)%Z.
Proof.
  split.
  - intros Hinj.
    destruct (Z_le_gt_dec cols 4) as [|Hc]; [by left|].
    destruct (Z_le_gt_dec rows 1) as [|Hr]; [by right|].
    assert ((0, 4) ∈ cells rows cols) as H04 by (apply elem_of_cells; lia).
    assert ((1, 0) ∈ cells rows cols) as H10 by (apply elem_of_cells; lia).
    discriminate (Hinj _ _ H04 H10 eq_refl).
  - intros Hcond [i j] [i' j'] Hc Hc' Heq.
    apply elem_of_cells in Hc, Hc'. unfold pred_index in Heq. simpl in Heq.
    assert (i = i' /\ j = j') as [-> ->] by lia. done.
Qed.

(** The theorem on a grid of two images, 32 by 62 pixels. *)
Lemma plot_attribution_labels_witness :
  fst (plot_attribution (H := toy_lib) (blank 32 62) empty_axes [3; 8] "Input")
  = Ok tt /\
  ax_texts (snd (plot_attribution (H := toy_lib) (blank 32 62) empty_axes [3; 8]
                   "Input"))
  = [(28%Z, 30%Z, 3); (58%Z, 30%Z, 8)].
Proof.
  split; [reflexivity|].
  destruct (plot_attribution_labels (L := toy_lib) (blank 32 62) empty_axes [3; 8]
              "Input")
    as (written & Hpre & Htexts & _ & Hlen).
  rewrite Htexts. specialize (Hlen eq_refl).
  destruct Hpre as [rest Hrest]. vm_compute in Hrest, Hlen.
  destruct written as [|c1 [|c2 [|c3 written]]]; try discriminate Hlen.
  injection Hrest as <- <- _. reflexivity.
Defined.

(** X7: when [imshow] takes an image with the dimensions of the grid of
    [n >= 2] images of 28 by 28 pixels in rows of four with two pixels of
    padding ([30 * ceil(n/4) + 2] by [30 * min(n,4) + 2] pixels), and
    there are [n] predictions, [plot_attribution] returns exactly when
    [n] is at most four or a multiple of four; for every other batch size
    the last row of labels reads past the predictions and the call
    raises. *)
Theorem labels_fit_batch_sizes `{L : PlotLib} (n : nat) (a : Image) (ax : Axes)
    (preds : list nat) (title : string) :
  imshow_accepts a = true ->
  1 < n -> length preds = n ->
  shape0 a = (30 * Z.of_nat ((n + 3) / 4) + 2)%Z ->
  shape1 a = (30 * Z.of_nat (n `min` 4) + 2)%Z ->
  (fst (plot_attribution a ax preds title) = Ok tt
   <-> n <= 4 \/ n mod 4 = 0).
Proof.
  intros Hshow Hn Hlen H0 H1. rewrite plot_attribution_ok, Hlen.
  unfold label_rows, label_cols. rewrite H0, H1.
  replace (30 * Z.of_nat ((n + 3) / 4) + 2 - 2)%Z
    with (Z.of_nat ((n + 3) / 4) * 30)%Z by lia.
  replace (30 * Z.of_nat (n `min` 4) + 2 - 2)%Z
    with (Z.of_nat (n `min` 4) * 30)%Z by lia.
  rewrite !Z.div_mul by done. rewrite !Nat2Z.id.
  pose proof (Nat.div_mod_eq (n + 3) 4) as Hq1.
  pose proof (Nat.mod_upper_bound (n + 3) 4 ltac:(lia)) as Hr1.
  pose proof (Nat.div_mod_eq n 4) as Hq2.
  pose proof (Nat.mod_upper_bound n 4 ltac:(lia)) as Hr2.
  set (q1 := (n + 3) / 4) in *. set (r1 := (n + 3) mod 4) in *.
  set (q2 := n / 4) in *. set (r2 := n mod 4) in *.
  split; [intros [_ H]|intros H; split; [done|]]; lia.
Qed.

(** The theorem at six images: a grid of 62 by 122 pixels. *)
Lemma labels_fit_batch_sizes_witness :
  fst (plot_attribution (H := toy_lib) (blank 62 122) empty_axes
         [7; 2; 1; 0; 4; 1] "epsilon")
  <> Ok tt.
Proof.
  intros H.
  apply (labels_fit_batch_sizes (L := toy_lib) 6 (blank 62 122) empty_axes
           [7; 2; 1; 0; 4; 1] "epsilon") in H; try reflexivity; [|lia].
  vm_compute in H. destruct H as [H|H]; [lia|discriminate H].
Defined.

(** *** The heatmap *)

Lemma reshape_rows_concat {A} (G : list (list A)) (w : nat) :
  Forall (fun r => length r = w) G ->
  reshape_rows (length G) w (concat G) = G.
Proof.
  unfold reshape_rows. induction 1 as [|row G Hrow HG IH]; [done|].
  simpl. f_equal.
  - by apply take_app_length'.
  - rewrite <- fmap_S_seq, <- list_fmap_compose. rewrite <- IH at 2.
    apply list_fmap_ext. intros _ r _. simpl.
    by rewrite (drop_app_add' row (concat G) w (r * w)).
Qed.

Lemma concat_map_map {A B} (f : A -> B) (G : list (list A)) :
  map f (concat G) = concat (map (map f) G).
Proof. induction G as [|row G IH]; [done|]. simpl. by rewrite map_app, IH. Qed.

Lemma mean_permute_rows (grid : list (list (list Q))) :
  Forall (fun r => length r = length (hd [] (mean_last (permute_1_2_0 grid))))
         (mean_last (permute_1_2_0 grid)).
Proof.
  unfold mean_last, permute_1_2_0.
  set (w := length (hd [] (hd [] grid))).
  destruct (length (hd [] grid)) as [|h]; [constructor|].
  apply Forall_forall. intros r Hr.
  apply list_elem_of_fmap in Hr as (r' & -> & Hr').
  apply list_elem_of_fmap in Hr' as (i & -> & _).
  simpl. by rewrite !length_map, !length_seq.
Qed.

Lemma prepare_colors `{L : PlotLib} (a : Tensor) (nrow : nat)
    (cmap : string) (colors : Image) :
  prepare_batch_for_plotting a nrow cmap = Some colors ->
  exists a',
    Plotting.normalize a = Some a' /\
    colors = map (map (get_cmap cmap))
               (mean_last (permute_1_2_0 (make_grid a' nrow))).
Proof.
  unfold prepare_batch_for_plotting.
  destruct (Plotting.normalize a) as [a'|]; [|done]. intros [= <-].
  exists a'. split; [done|].
  set (G := mean_last (permute_1_2_0 (make_grid a' nrow))).
  rewrite concat_map_map.
  rewrite <- (length_map (map (get_cmap cmap)) G).
  assert (length (hd [] G) = length (hd [] (map (map (get_cmap cmap)) G))) as ->.
  { destruct G; [done|]. simpl. by rewrite length_map. }
  apply reshape_rows_concat.
  pose proof (mean_permute_rows (make_grid a' nrow)) as Hrect. fold G in Hrect.
  apply Forall_fmap. eapply Forall_impl; [apply Hrect|].
  intros r Hr. simpl. rewrite length_map, Hr.
  destruct G; [done|]. simpl. by rewrite length_map.
Qed.

(** X4: the two reshapes of lines 41-42 undo each other: the heatmap
    [prepare_batch_for_plotting] returns has the rows and columns of the
    channel-averaged grid, and each of its pixels is the colormap of the
    grid value at the same place. *)
Theorem heatmap_is_colormap_of_grid `{L : PlotLib} (a : Tensor) (nrow : nat)
    (cmap : string) (colors : Image) :
  prepare_batch_for_plotting a nrow cmap = Some colors ->
  exists a',
    Plotting.normalize a = Some a' /\
    colors = map (map (get_cmap cmap))
               (mean_last (permute_1_2_0 (make_grid a' nrow))).
Proof. apply prepare_colors. Qed.

(** The theorem on a batch of two samples, with the batch as the grid. *)
Lemma heatmap_is_colormap_of_grid_witness :
  exists colors,
    prepare_batch_for_plotting (H := toy_lib) two_samples 4 "gray" = Some colors /\
    exists a',
      Plotting.normalize two_samples = Some a' /\
      colors = map (map (get_cmap (PlotLib := toy_lib) "gray"))
                 (mean_last (permute_1_2_0 (make_grid (PlotLib := toy_lib) a' 4))).
Proof.
  eexists. split; [vm_compute; reflexivity|].
  apply (heatmap_is_colormap_of_grid (L := toy_lib) two_samples 4 "gray").
  vm_compute; reflexivity.
Defined.

End FigureFacts.

(** ** The values of the heatmap *)

Module HeatFacts.
Import Plotting Figure.

Lemma qsum_unit_bounds (l : list Q) :
  Forall in_unit l -> 0 <= qsum l /\ qsum l <= inject_Z (Z.of_nat (length l)).
Proof.
  induction 1 as [|v l [Hlo Hhi] _ [IHlo IHhi]].
  - simpl. split; apply Qle_refl.
  - simpl qsum. simpl length. rewrite Nat2Z.inj_succ, <- Z.add_1_r, inject_Z_plus.
    change (inject_Z 1) with 1. split; lra.
Qed.

Lemma mean_in_unit (l : list Q) : l <> [] -> Forall in_unit l -> in_unit (vector_mean l).
Proof.
  intros Hne Hl. destruct (qsum_unit_bounds l Hl) as [Hlo Hhi].
  assert (0 < inject_Z (Z.of_nat (length l))) as Hn.
  { destruct l; [done|]. unfold Qlt. simpl. lia. }
  unfold vector_mean. split.
  - apply Qle_shift_div_l; [done|]. lra.
  - apply Qle_shift_div_r; [done|]. lra.
Qed.

Lemma nth_in_unit (l : list Q) (i : nat) : Forall in_unit l -> in_unit (nth i l 0).
Proof.
  intros Hl. destruct (nth_in_or_default i l 0) as [Hin| ->].
  - by apply (proj1 (Forall_forall _ _) Hl), list_elem_of_In.
  - split; [apply Qle_refl|]. unfold Qle. simpl. lia.
Qed.

Lemma mean_permute_in_unit (grid : list (list (list Q))) :
  grid <> [] -> Forall (Forall (Forall in_unit)) grid ->
  Forall (Forall in_unit) (mean_last (permute_1_2_0 grid)).
Proof.
  intros Hne Hgrid. unfold mean_last, permute_1_2_0.
  apply Forall_fmap, Forall_fmap, Forall_forall. intros r _. simpl.
  apply Forall_fmap, Forall_fmap, Forall_forall. intros c _. simpl.
  apply mean_in_unit.
  - by destruct grid.
  - apply Forall_fmap. apply Forall_forall. intros ch Hch. simpl.
    apply nth_in_unit.
    pose proof (proj1 (Forall_forall _ _) Hgrid ch Hch) as Hrows.
    destruct (nth_in_or_default r ch []) as [Hin| ->]; [|constructor].
    by apply (proj1 (Forall_forall _ _) Hrows), list_elem_of_In.
Qed.

(** X5: with a grid library that returns at least one channel and only
    values between zero and one when given such values (images and
    padding), every pixel of the heatmap [prepare_batch_for_plotting]
    returns is the colormap of a value between zero and one: the
    colormap is never asked for a value outside its range. *)
Theorem heatmap_values_in_range `{L : PlotLib} (a : Tensor) (nrow : nat)
    (cmap : string) (colors : Image) :
  (forall t, Forall (Forall in_unit) t ->
             make_grid t nrow <> [] /\
             Forall (Forall (Forall in_unit)) (make_grid t nrow)) ->
  prepare_batch_for_plotting a nrow cmap = Some colors ->
  Forall (Forall (fun px => exists v, in_unit v /\ px = get_cmap cmap v)) colors.
Proof.
  intros Hgrid Hprep.
  apply FigureFacts.prepare_colors in Hprep as (a' & Ha' & ->).
  destruct (PlottingFacts.normalize_spec a a' Ha') as [_ Hnorm].
  destruct (Hgrid a' Hnorm) as [Hne Hunit].
  pose proof (mean_permute_in_unit _ Hne Hunit) as HG.
  apply Forall_fmap. eapply Forall_impl; [apply HG|].
  intros r Hr. simpl. apply Forall_fmap. eapply Forall_impl; [apply Hr|].
  intros v Hv. simpl. by exists v.
Qed.

(** The theorem on two samples, with the batch as the grid. *)
Lemma heatmap_values_in_range_witness :
  exists colors,
    prepare_batch_for_plotting (H := toy_lib) two_samples 4 "gray" = Some colors /\
    Forall (Forall (fun px => exists v, in_unit v
                                        /\ px = get_cmap (PlotLib := toy_lib) "gray" v))
           colors.
Proof.
  eexists. split; [vm_compute; reflexivity|].
  apply (heatmap_values_in_range (L := toy_lib) two_samples 4 "gray").
  - intros t Ht. split; [done|]. by constructor.
  - vm_compute; reflexivity.
Defined.

Lemma normalize_rescales (a a' : Tensor) :
  normalize a = Some a' ->
  Forall2 (fun s s' => exists m, max_abs s = Some m /\
                                 s' = map (rescale (m + stab)) s) a a'.
Proof.
  unfold normalize. destruct (divide a) as [b|] eqn:Hb; [|done]. intros [= <-].
  unfold divide in Hb. destruct a as [|s0 a0]; [done|].
  apply mapM_Some in Hb. apply Forall2_fmap_r.
  eapply Forall2_impl; [apply Hb|]. intros s t Ht. simpl in Ht.
  unfold divide_sample, denom in Ht.
  destruct (max_abs s) as [m|]; [|done]. injection Ht as <-.
  exists m. split; [done|]. unfold shift_sample.
  rewrite <- list_fmap_compose. done.
Qed.

Lemma rescale_le (d u v : Q) : 0 < d -> u <= v -> rescale d u <= rescale d v.
Proof.
  intros Hd Huv. unfold rescale, Qdiv.
  pose proof (Qinv_lt_0_compat d Hd) as Hi.
  assert (u * / d <= v * / d) as Hk by (apply Qmult_le_compat_r; lra).
  set (p := u * / d) in *. set (q := v * / d) in *.
  assert (forall x, (x + 1) * / 2 == (x + 1) * (1 # 2)) as E
    by (intros x; reflexivity).
  rewrite !E. lra.
Qed.

Lemma rescale_zero (d : Q) : rescale d 0 == 1 # 2.
Proof. unfold rescale, Qdiv. rewrite Qmult_0_l. reflexivity. Qed.

(** X6: within a sample the normalization of lines 31-32 never reverses
    the order of two values and sends zero to one half, so values that are
    not negative land at one half or above and values that are not
    positive at one half or below. *)
Theorem normalize_keeps_order (a a' : Tensor) :
  normalize a = Some a' ->
  Forall2 (fun s s' =>
             length s' = length s /\
             forall i j u v u' v',
               s !! i = Some u -> s !! j = Some v ->
               s' !! i = Some u' -> s' !! j = Some v' ->
               (u <= v -> u' <= v') /\
               (u == 0 -> u' == 1 # 2) /\
               (0 <= u -> 1 # 2 <= u') /\ (u <= 0 -> u' <= 1 # 2)) a a'.
Proof.
  intros H. apply normalize_rescales in H.
  eapply Forall2_impl; [apply H|]. intros s s' (m & Hm & ->).
  split; [by rewrite length_map|].
  intros i j u v u' v' Hu Hv Hu' Hv'.
  rewrite list_lookup_fmap, Hu in Hu'. rewrite list_lookup_fmap, Hv in Hv'.
  simpl in Hu', Hv'. injection Hu' as <-. injection Hv' as <-.
  destruct (PlottingFacts.max_abs_bound s m Hm) as [Hm0 _].
  pose proof PlottingFacts.stab_pos as Hstab.
  assert (0 < m + stab) as Hd by lra.
  pose proof (rescale_zero (m + stab)) as Hz.
  split; [by apply rescale_le|].
  split.
  { intros H0. rewrite <- Hz. split_and?.
    apply Qle_antisym; apply rescale_le; try done; lra. }
  split; intros H0; rewrite <- Hz; by apply rescale_le.
Qed.

(** The theorem on a sample of zeros and one of both signs. *)
Lemma normalize_keeps_order_witness :
  exists a',
    normalize two_samples = Some a' /\
    Forall2 (fun s s' =>
               length s' = length s /\
               forall i j u v u' v',
                 s !! i = Some u -> s !! j = Some v ->
                 s' !! i = Some u' -> s' !! j = Some v' ->
                 (u <= v -> u' <= v') /\
                 (u == 0 -> u' == 1 # 2) /\
                 (0 <= u -> 1 # 2 <= u') /\ (u <= 0 -> u' <= 1 # 2)) two_samples a'.
Proof.
  eexists. split; [vm_compute; reflexivity|].
  apply (normalize_keeps_order two_samples). vm_compute; reflexivity.
Defined.

End HeatFacts.

(** ** The script around the claims: selection, seeds, pattern files *)

Module ScriptFacts.
Import Script SelectFacts.

(** *** Line 78 *)

Lemma gather_lookup (n : nat) (y_hat : Scores) (idx : list nat) (sel : list Q) :
  gather n y_hat idx = Some sel ->
  length sel = n /\
  forall k m, sel !! k = Some m ->
    exists j row, idx !! k = Some j /\ y_hat !! k = Some row /\ row !! j = Some m.
Proof.
  unfold gather. destruct (Nat.eqb n (length idx)); [|done].
  intros H. apply mapM_Some in H. split.
  - by rewrite <- (Forall2_length _ _ _ H), length_seq.
  - intros k m Hm.
    destruct (Forall2_lookup_r _ _ _ _ _ H Hm) as (k' & Hk' & Hf).
    apply lookup_seq in Hk' as [-> _]. simpl in Hf.
    destruct (idx !! k) as [j|]; [|done]. simpl in Hf.
    destruct (y_hat !! k) as [row|]; [|done]. simpl in Hf.
    by exists j, row.
Qed.

(** X8: on an output with one row per sample, the selection of line 78
    is defined exactly when every row has an element, and what it selects
    from each row is that row's maximum: an element of the row that no
    element exceeds. *)
Theorem select_argmax_row_maxima (n : nat) (y_hat : Scores) :
  length y_hat = n ->
  (is_Some (select_argmax n y_hat) <-> Forall (fun row => row <> []) y_hat) /\
  (forall idx sel, select_argmax n y_hat = Some (idx, sel) ->
     Forall2 (fun row m => m ∈ row /\ forall v, v ∈ row -> v <= m) y_hat sel).
Proof.
  intros Hn. split.
  - split; [|by apply RunFacts.select_argmax_is_Some].
    intros [[idx sel] H]. unfold select_argmax in H.
    destruct (max1_indices y_hat) as [idx'|] eqn:Hidx; [|done].
    assert (is_Some (max1_indices y_hat)) as Hs by (by eexists).
    apply mapM_is_Some_1 in Hs. eapply Forall_impl; [apply Hs|].
    intros row [j Hj] ->. done.
  - intros idx sel H. unfold select_argmax in H.
    destruct (max1_indices y_hat) as [idx'|] eqn:Hidx; [|done]. simpl in H.
    destruct (gather n y_hat idx') as [sel'|] eqn:Hsel; [|done].
    injection H as <- <-.
    apply max1_indices_spec in Hidx.
    apply gather_lookup in Hsel as [Hlen Hsel].
    apply Forall2_same_length_lookup_2; [lia|].
    intros k row m Hrow Hm.
    destruct (Hsel k m Hm) as (j & row' & Hj & Hrow' & Hjm).
    assert (row' = row) as -> by congruence.
    destruct (Forall2_lookup_lr _ _ _ _ _ _ Hidx Hrow Hj) as (m' & Hj' & Hmax & _).
    assert (m' = m) as -> by congruence.
    split; [by eapply list_elem_of_lookup_2|].
    intros v Hv. apply list_elem_of_lookup in Hv as [i Hi]. by eapply Hmax.
Qed.

(** The theorem at a two-sample output with a tie in the second row. *)
Lemma select_argmax_row_maxima_witness :
  exists idx sel,
    select_argmax 2 [[1; 3; 2]; [5; 5; 4]] = Some (idx, sel) /\
    Forall2 (fun row m => m ∈ row /\ forall v, v ∈ row -> v <= m)
            [[1; 3; 2]; [5; 5; 4]] sel.
Proof.
  eexists _, _. split; [vm_compute; reflexivity|].
  eapply (proj2 (select_argmax_row_maxima 2 [[1; 3; 2]; [5; 5; 4]] eq_refl)).
  vm_compute; reflexivity.
Defined.

(** *** The seeds, lines 143-149 *)

Section WithCollaborators.
Context `{C : Collaborators}.

Lemma world_eta (w : World) :
  {| rngs := {| py_random := py_random (rngs w); np_random := np_random (rngs w);
                torch_random := torch_random (rngs w) |};
     disk := disk w; trace := trace w |} = w.
Proof. by destruct w as [[] ? ?]. Qed.

(** X10: a [--seed] below zero or from [2**32] on stops the program at
    [np.random.seed], the first of the three seedings: [main] is not
    entered, no generator is reseeded, nothing is fitted, stored or
    loaded. *)
Theorem seed_out_of_range_stops (args : Args) (base_path : string) (w : World)
    (s : Z) :
  arg_seed args = Some s -> (s < 0 \/ 2 ^ 32 <= s)%Z ->
  entry args base_path w = (Raise RuntimeError, w).
Proof.
  intros Hs Hrange. unfold entry, seed_all. rewrite Hs.
  assert (((0 <=? s) && (s <? 2 ^ 32))%Z = false) as ->.
  { apply andb_false_iff. destruct Hrange; [left; apply Z.leb_gt|right; apply Z.ltb_ge]; lia. }
  by rewrite world_eta.
Qed.

(** *** The pattern files, lines 94-106 *)

Lemma fit_or_load_keeps fit positive path model loader (w : World) (q : string) :
  is_Some (disk w !! q) \/ q <> path ->
  disk (snd (fit_or_load fit positive path model loader w)) !! q = disk w !! q.
Proof.
  intros Hq. destruct (disk w !! path) as [p|] eqn:Hp.
  - by rewrite (MainFacts.fit_or_load_exists _ _ _ _ _ _ p Hp).
  - rewrite (MainFacts.fit_or_load_missing _ _ _ _ _ _ Hp).
    destruct (fit model loader (rngs w)) as [[p|e] g]; [|done]. simpl.
    apply lookup_insert_ne. intros <-. destruct Hq as [[? Hq]|Hq]; [congruence|done].
Qed.

Lemma fit_or_load_stored fit positive path model loader (w : World) (p : PatternSet) :
  fst (fit_or_load fit positive path model loader w) = Ok p ->
  disk (snd (fit_or_load fit positive path model loader w)) !! path = Some p.
Proof.
  destruct (disk w !! path) as [p'|] eqn:Hp.
  - rewrite (MainFacts.fit_or_load_exists _ _ _ _ _ _ p' Hp). simpl. congruence.
  - rewrite (MainFacts.fit_or_load_missing _ _ _ _ _ _ Hp).
    destruct (fit model loader (rngs w)) as [[p'|e] g]; [|done]. simpl.
    intros [= ->]. apply lookup_insert_eq.
Qed.

(** [main] on a successful setup, as the two blocks one after the other. *)
Lemma main_patterns_blocks (args : Args) (base_path : string) (w w2 : World)
    (model : Model) (train_loader : Loader) (x : Tensor) :
  setup args w = (Ok (model, train_loader, x), w2) ->
  main_patterns args base_path w
  = let b1 := fit_or_load fit_patternnet false (all_patterns_path base_path)
                model train_loader w2 in
    match fst b1 with
    | Raise e => (Raise e, snd b1)
    | Ok patterns_all =>
        let b2 := fit_or_load fit_patternnet_positive true
                    (pos_patterns_path base_path) model train_loader (snd b1) in
        match fst b2 with
        | Raise e => (Raise e, snd b2)
        | Ok patterns_pos => (Ok (patterns_all, patterns_pos), snd b2)
        end
    end.
Proof.
  intros Hsetup. unfold main_patterns. rewrite Hsetup. cbv zeta.
  destruct (fit_or_load fit_patternnet _ _ _ _ _) as [[pa|e] w3]; [|done]. simpl.
  by destruct (fit_or_load fit_patternnet_positive _ _ _ _ _) as [[pp|e] w4].
Qed.

Lemma main_patterns_raise (args : Args) (base_path : string) (w : World) (e : Error) :
  fst (setup args w) = Raise e ->
  main_patterns args base_path w = (Raise e, snd (setup args w)).
Proof.
  unfold main_patterns. destruct (setup args w) as [[[[m t] x]|e'] w2]; [done|].
  simpl. by intros [= ->].
Qed.

(** X11: lines 56-106 of [main] (the setup and the two pattern blocks)
    call [store_patterns] for a missing pattern file only: however they
    end, a pattern file that exists keeps its content, and nothing is
    pickled to any other path. *)
Theorem main_keeps_existing_files (args : Args) (base_path : string) (w : World)
    (q : string) :
  is_Some (disk w !! q)
  \/ (q <> all_patterns_path base_path /\ q <> pos_patterns_path base_path) ->
  disk (snd (main_patterns args base_path w)) !! q = disk w !! q.
Proof.
  intros Hq. pose proof (MainFacts.setup_frame args w) as [Hd _].
  destruct (setup args w) as [[[[model train] x]|e] w2] eqn:Hsetup.
  - rewrite (main_patterns_blocks _ _ _ _ _ _ _ Hsetup). cbv zeta.
    simpl in Hd.
    set (b1 := fit_or_load fit_patternnet false (all_patterns_path base_path)
                 model train w2).
    assert (disk (snd b1) !! q = disk w !! q) as H1.
    { unfold b1. rewrite fit_or_load_keeps; rewrite Hd; [done|]. tauto. }
    destruct (fst b1) as [pa|e]; [|done].
    set (b2 := fit_or_load fit_patternnet_positive true (pos_patterns_path base_path)
                 model train (snd b1)).
    assert (disk (snd b2) !! q = disk w !! q) as H2.
    { unfold b2. rewrite fit_or_load_keeps; [done|]. rewrite H1. tauto. }
    by destruct (fst b2) as [pp|e].
  - rewrite (main_patterns_raise _ _ _ e) by (by rewrite Hsetup).
    rewrite Hsetup. simpl in *. by rewrite Hd.
Qed.

(** After a run that returned, both files hold what it returned. *)
Lemma main_patterns_stored (args : Args) (base_path : string) (w w' : World)
    (p_all p_pos : PatternSet) :
  main_patterns args base_path w = (Ok (p_all, p_pos), w') ->
  disk w' !! all_patterns_path base_path = Some p_all /\
  disk w' !! pos_patterns_path base_path = Some p_pos.
Proof.
  destruct (setup args w) as [[[[model train] x]|e] w2] eqn:Hsetup.
  - rewrite (main_patterns_blocks _ _ _ _ _ _ _ Hsetup). cbv zeta.
    set (b1 := fit_or_load fit_patternnet false (all_patterns_path base_path)
                 model train w2).
    pose proof (fit_or_load_stored fit_patternnet false
                  (all_patterns_path base_path) model train w2) as S1.
    fold b1 in S1.
    destruct (fst b1) as [pa|e]; [|done].
    set (b2 := fit_or_load fit_patternnet_positive true (pos_patterns_path base_path)
                 model train (snd b1)).
    pose proof (fit_or_load_stored fit_patternnet_positive true
                  (pos_patterns_path base_path) model train (snd b1)) as S2.
    pose proof (fit_or_load_keeps fit_patternnet_positive true
                  (pos_patterns_path base_path) model train (snd b1)
                  (all_patterns_path base_path)) as K.
    fold b2 in S2, K.
    destruct (fst b2) as [pp|e]; [|done].
    intros [= <- <- <-]. split; [|by apply S2].
    rewrite K; [by apply S1|]. right. apply MainFacts.paths_differ.
  - rewrite (main_patterns_raise _ _ _ e) by (by rewrite Hsetup). done.
Qed.

(** X12: the patterns that lines 56-106 of [main] returned in one run are
    what they return in every later run, as long as the two pattern files
    are left alone: whatever the command line, the generators and the
    model of the later run, both blocks load their file, no fitter is
    called and no pattern file is written. *)
Theorem later_runs_load (args args' : Args) (base_path : string)
    (w w' w'' : World) (p_all p_pos : PatternSet) :
  main_patterns args base_path w = (Ok (p_all, p_pos), w') ->
  disk w'' = disk w' ->
  is_Ok (fst (setup args' w'')) ->
  fst (main_patterns args' base_path w'') = Ok (p_all, p_pos) /\
  disk (snd (main_patterns args' base_path w'')) = disk w' /\
  trace (snd (main_patterns args' base_path w''))
  = trace w'' ++ [EvLoad (all_patterns_path base_path);
                  EvLoad (pos_patterns_path base_path)].
Proof.
  intros Hrun Hdisk Hsetup.
  apply main_patterns_stored in Hrun as [Hall Hpos].
  rewrite <- Hdisk in Hall, Hpos.
  pose proof (MainFacts.setup_frame args' w'') as [Hd Ht].
  destruct (setup args' w'') as [[[[m train] x]|e] w2] eqn:Hs; [|by destruct Hsetup].
  rewrite (main_patterns_blocks _ _ _ _ _ _ _ Hs). cbv zeta. simpl in Hd, Ht.
  rewrite (MainFacts.fit_or_load_exists _ _ _ _ _ _ p_all) by (by rewrite Hd). simpl.
  rewrite (MainFacts.fit_or_load_exists _ _ _ _ _ _ p_pos) by (by rewrite Hd). simpl.
  by rewrite Hd, Ht, <- app_assoc, Hdisk.
Qed.

(** X13: when neither file exists and the second fitter raises after the
    first returned, [main] ends with that exception, and the first
    patterns are already stored: the run leaves one of the two files. *)
Theorem failed_second_fit_keeps_first (args : Args) (base_path : string)
    (w w2 : World) (model : Model) (train_loader : Loader) (x : Tensor)
    (p_all : PatternSet) (e : Error) (g1 g2 : Rngs Gen) :
  setup args w = (Ok (model, train_loader, x), w2) ->
  disk w !! all_patterns_path base_path = None ->
  disk w !! pos_patterns_path base_path = None ->
  fit_patternnet model train_loader (rngs w2) = (Ok p_all, g1) ->
  fit_patternnet_positive model train_loader g1 = (Raise e, g2) ->
  main_patterns args base_path w
  = (Raise e,
     {| rngs := g2;
        disk := <[all_patterns_path base_path := p_all]> (disk w);
        trace := trace w ++ [EvFit false; EvStore (all_patterns_path base_path);
                             EvFit true] |}).
Proof.
  intros Hsetup Hall Hpos Hf1 Hf2.
  pose proof (MainFacts.setup_frame args w) as [Hd Ht].
  rewrite Hsetup in Hd, Ht. simpl in Hd, Ht.
  rewrite (main_patterns_blocks _ _ _ _ _ _ _ Hsetup). cbv zeta.
  rewrite (MainFacts.fit_or_load_missing _ _ _ _ _ _) by (by rewrite Hd).
  rewrite Hf1. simpl.
  rewrite (MainFacts.fit_or_load_missing _ _ _ _ _ _).
  - simpl. rewrite Hf2. simpl. rewrite Hd, Ht. by rewrite <- !app_assoc.
  - simpl. rewrite lookup_insert_ne; [by rewrite Hd|]. apply MainFacts.paths_differ.
Qed.

End WithCollaborators.

(** The theorem at [--seed -1]. *)
Lemma seed_out_of_range_stops_witness :
  entry (C := Examples.toy) (Examples.toy_args false (Some (-1)%Z)) "/repo"
    (Examples.fresh_world 3)
  = (Raise RuntimeError, Examples.fresh_world 3).
Proof.
  apply (seed_out_of_range_stops (C := Examples.toy)
           (Examples.toy_args false (Some (-1)%Z)) "/repo"
           (Examples.fresh_world 3) (-1)%Z); [reflexivity | left; lia].
Defined.

(** The theorem where only the second file exists: the run fits and stores
    the first patterns and leaves the second file as it was. *)
Lemma main_keeps_existing_files_witness :
  disk (snd (main_patterns (C := Examples.toy) (Examples.toy_args true (Some 7%Z))
               "/repo" (Examples.half_world 3)))
    !! pos_patterns_path "/repo"
  = Some Examples.stale_pos.
Proof.
  eapply eq_trans.
  - apply (main_keeps_existing_files (C := Examples.toy)
             (Examples.toy_args true (Some 7%Z)) "/repo" (Examples.half_world 3)
             (pos_patterns_path "/repo")).
    left. vm_compute. by eexists.
  - vm_compute; reflexivity.
Defined.

(** The theorem for a run without files, followed by a run that trains a
    new model from another generator state. *)
Lemma later_runs_load_witness :
  exists p_all p_pos w',
    main_patterns (C := Examples.toy) (Examples.toy_args false (Some 7%Z)) "/repo"
      (Examples.fresh_world 3) = (Ok (p_all, p_pos), w') /\
    fst (main_patterns (C := Examples.toy) (Examples.toy_args true (Some 7%Z)) "/repo"
           (@Build_World Examples.toy (Examples.toy_rngs 9) (disk w') []))
    = Ok (p_all, p_pos).
Proof.
  remember (main_patterns (C := Examples.toy) (Examples.toy_args false (Some 7%Z))
              "/repo" (Examples.fresh_world 3)) as r eqn:Hr.
  assert (is_Ok (fst r)) as Hok by (subst r; vm_compute; exact I).
  destruct r as [[[p_all p_pos]|e] w']; [|destruct Hok].
  exists p_all, p_pos, w'. split; [reflexivity|].
  apply (later_runs_load (C := Examples.toy) (Examples.toy_args false (Some 7%Z))
           (Examples.toy_args true (Some 7%Z)) "/repo" (Examples.fresh_world 3) w'
           (@Build_World Examples.toy (Examples.toy_rngs 9) (disk w') [])
           p_all p_pos (eq_sym Hr) eq_refl).
  vm_compute. exact I.
Defined.

(** The theorem with a positive fitter that raises. *)
Lemma failed_second_fit_keeps_first_witness :
  main_patterns (C := Examples.flaky) (Examples.toy_args false (Some 7%Z)) "/repo"
    Examples.flaky_world
  = (Raise RuntimeError,
     @Build_World Examples.flaky (Examples.toy_rngs 3)
       (<[all_patterns_path "/repo" := 1%nat]> ∅)
       [EvFit false; EvStore (all_patterns_path "/repo"); EvFit true]).
Proof.
  apply (failed_second_fit_keeps_first (C := Examples.flaky)
           (Examples.toy_args false (Some 7%Z)) "/repo" Examples.flaky_world
           Examples.flaky_world tt tt [[1; 2]] 1%nat RuntimeError
           (Examples.toy_rngs 3) (Examples.toy_rngs 3)); reflexivity.
Defined.

(** *** What a call leaves in [x.grad], lines 83-89 *)

Lemma divide_samples (a a' : Tensor) :
  Plotting.divide a = Some a' ->
  Forall2 (fun s s' => exists m, Plotting.max_abs s = Some m /\
                                 s' = map (fun v => v / (m + Plotting.stab)) s) a a'.
Proof.
  unfold Plotting.divide. destruct a as [|s0 a0]; [done|].
  intros H. apply mapM_Some in H.
  eapply Forall2_impl; [apply H|]. intros s s' Hs. simpl in Hs.
  unfold Plotting.divide_sample, Plotting.denom in Hs.
  destruct (Plotting.max_abs s) as [m|]; [|done]. injection Hs as <-.
  by exists m.
Qed.

Section WithModel.
Context `{M : ExplainModel}.

(** X14: [attr] is the object [x.grad] unless the postprocess builds a new
    tensor, and line 31 divides in place.  So after a call that returned,
    without postprocess or with one that returns the object it was given,
    [x.grad] holds what was plotted before the shift of line 32: every
    sample of the attribution divided by its largest magnitude plus
    [1e-6]; after a call whose postprocess builds a new tensor, as line
    116's does, [x.grad] holds the gradient the backward pass returned.
    The input itself is never changed. *)
Theorem grad_left_by_call (rule : string) (title : option string)
    (post : option Postprocess) (pattern : option Pattern)
    (cmap : string) (st st' : Input) (run : Run) :
  run_and_plot_rule rule title post pattern cmap st = (Ok run, st') ->
  x_data st' = x_data st /\
  exists y_hat graph idx g a',
    forward_explain rule pattern (x_data st) = Ok (y_hat, graph) /\
    max1_indices y_hat = Some idx /\
    backward graph (seed y_hat idx) = Ok g /\
    attribution run = post_value post g /\
    Forall2 (fun s s' => exists m, Plotting.max_abs s = Some m /\
                                   s' = map (fun v => v / (m + Plotting.stab)) s)
            (attribution run) a' /\
    heat run = map Plotting.shift_sample a' /\
    x_grad st' = Some (if post_aliases post then a' else g).
Proof.
  unfold run_and_plot_rule.
  destruct (forward_explain rule pattern (x_data st)) as [[y_hat graph]|] eqn:Hf;
    [|done].
  destruct (select_argmax (length (x_data st)) y_hat) as [[idx sel]|] eqn:Hsel;
    [|done].
  destruct (backward graph (seed y_hat idx)) as [g|] eqn:Hb; [|done].
  simpl.
  destruct (Plotting.divide _) as [a'|] eqn:Ha; [|done].
  intros [= <- <-]. split; [by destruct (post_aliases post)|].
  exists y_hat, graph, idx, g, a'. simpl.
  split; [done|]. split; [by eapply RunFacts.select_argmax_indices|].
  split; [done|]. split; [done|]. split; [by apply divide_samples|].
  split; [done|]. by destruct (post_aliases post).
Qed.

End WithModel.

(** The theorem at two gradient calls on [net1], where the gradient of
    both samples is [(1, 2)]: without postprocess, and with one that
    returns its argument, [x.grad] is left at [(1, 2)] divided by
    [2 + 1e-6]; with the postprocess of line 116 it is left at [(1, 2)]. *)
Lemma grad_left_by_call_witness :
  (exists run st' a',
     run_and_plot_rule (M := EngineModel.model Examples.net1)
       "gradient" None None None "seismic" Examples.x1 = (Ok run, st') /\
     attribution run = [[1; 2]; [1; 2]] /\
     x_grad st' = Some a' /\
     Forall2 (fun s s' => exists m, Plotting.max_abs s = Some m /\
                                    s' = map (fun v => v / (m + Plotting.stab)) s)
             (attribution run) a' /\
     x_grad st' <> Some (attribution run)) /\
  (exists run st',
     run_and_plot_rule (M := EngineModel.model Examples.net1)
       "gradient" None (Some (InPlace (fun a => a))) None "seismic" Examples.x1
     = (Ok run, st') /\
     x_grad st' <> Some [[1; 2]; [1; 2]]) /\
  (exists run st',
     run_and_plot_rule (M := EngineModel.model Examples.net1)
       "gradient" None
       (Some (NewTensor (fun a => tensor_mul a (x_data Examples.x1))))
       None "seismic" Examples.x1
     = (Ok run, st') /\
     x_grad st' = Some [[1; 2]; [1; 2]]).
Proof.
  split; [|split].
  - destruct (run_and_plot_rule (M := EngineModel.model Examples.net1)
                "gradient" None None None "seismic" Examples.x1)
      as [[run|e] st'] eqn:Hrun; [|vm_compute in Hrun; discriminate Hrun].
    destruct (grad_left_by_call (M := EngineModel.model Examples.net1)
                "gradient" None None None "seismic" Examples.x1 st' run Hrun)
      as (_ & y_hat & graph & idx & g & a' & _ & _ & _ & _ & Ha & _ & Hgrad).
    exists run, st', a'.
    vm_compute in Hrun. injection Hrun as <- <-.
    split; [reflexivity|]. split; [reflexivity|]. split; [exact Hgrad|].
    split; [exact Ha|]. vm_compute. discriminate.
  - eexists _, _. split; [vm_compute; reflexivity|]. vm_compute. discriminate.
  - eexists _, _. split; [vm_compute; reflexivity|]. reflexivity.
Defined.

End ScriptFacts.
